(** * HK-WebD: a verification development for the tutorial snippets

    The repository is a corpus of Express and React teaching snippets.
    This file embeds the snippets that carry behaviour of their own:

    - [generateToken] and the token-based authentication servers of
      README.md and NODEJS-README.md;
    - the JWT and MongoDB/bcrypt sign-in handlers of the three guides;
    - the counter in its three state-management styles (prop drilling,
      Context API, Recoil);
    - the [useDebounce] and [useFetch] hooks with their usage examples
      [SearchInput] and [DataDisplay], and the [useCounter] and
      [usePrevious] hooks;
    - the JWT routes ([/me], [authenticateJWT]) over memory and MongoDB;
    - the DOM todo list and the React todo app;
    - the [ErrorBoundary] class component;
    - the import lists of the JSX files.

    Definitions come first, statements and proofs follow. *)

From Stdlib Require Import ZArith List Lia Bool Ascii String DecimalString.
From stdpp Require Import gmap strings list fin_maps functions.
Import ListNotations.

Local Open Scope string_scope.
Local Open Scope Z_scope.

(** String concatenation unfolds on a constructor, as in the Standard
    Library. *)
Local Arguments String.append !_ _ / : simpl nomatch.

(* ===================================================================== *)
(** * JavaScript numbers that matter for [generateToken]                  *)
(* ===================================================================== *)

(** A finite non-negative binary64 value is [n * 2^-1074] for a natural
    numerator [n].  Values below one are the numerators [m * 2^e] with a
    53-bit significand [m] and [0 <= e <= 1021].  Multiplication of such a
    value by a small integer is the exact product rounded to the nearest
    representable value, ties to even. *)
Module Double.

Definition prec : Z := 53.
Definition scale : Z := 1074.

  (** A value of [Math.random()]: significand and exponent. *)
Record unit_double := { mant : Z; expo : Z }.

Definition numerator (r : unit_double) : Z := mant r * 2 ^ expo r.

  (** The format bounds of a binary64 value in [0, 1). *)
Definition in_unit_interval (r : unit_double) : Prop :=
    0 <= mant r < 2 ^ prec /\ 0 <= expo r <= scale - prec.

  (** Round a numerator to 53 significant bits, ties to even. *)
Definition round_even (n : Z) : Z :=
    let b := Z.log2 n in
    if b <? prec then n
    else
      let s := b - (prec - 1) in
      let q := Z.shiftr n s in
      let r := Z.land n (Z.ones s) in
      let half := Z.shiftl 1 (s - 1) in
      if (half <? r) || ((r =? half) && Z.odd q)
      then Z.shiftl (q + 1) s
      else Z.shiftl q s.

  (** [r * k] for an integer [k]: numerator of the rounded product. *)
Definition mul_int (r : unit_double) (k : Z) : Z :=
    round_even (numerator r * k).

  (** [Math.floor] of a non-negative value given by its numerator. *)
Definition floor (n : Z) : Z := Z.shiftr n scale.

End Double.

(* ===================================================================== *)
(** * generateToken (README.md and NODEJS-README.md, section 7)           *)
(* ===================================================================== *)

Module Token.

  (** [options] in README.md, [chars] in NODEJS-README.md. *)
Definition options : string :=
    "abcdefghijklmnopqrstuvwxyzABCDEFGHIJKLMNOPQRSTUVWXYZ0123456789".

  (** [options.length] *)
Definition options_length : Z := Z.of_nat (String.length options).

  (** [s[i]]: the character at index [i], [undefined] out of range. *)
Definition js_index (s : string) (i : Z) : option ascii :=
    if i <? 0 then None else String.get (Z.to_nat i) s.

  (** [token += x]: string concatenation; [undefined] is appended as the
      text "undefined". *)
Definition js_append (token : string) (x : option ascii) : string :=
    match x with
    | Some c => (token ++ String c EmptyString)%string
    | None => (token ++ "undefined")%string
    end.

  (** The source of randomness: the [k]-th call of [Math.random()] made by
      the process returns [rand k]. *)
Definition random_source := nat -> Double.unit_double.

  (** [Math.floor(Math.random() * options.length)] at the [k]-th draw. *)
Definition random_index (rand : random_source) (k : nat) : Z :=
    Double.floor (Double.mul_int (rand k) options_length).

  (** The loop [for (let i = 0; i < 32; i++) token += options[...]], with
      [left = 32 - i] iterations to go and [k] draws already made. *)
Fixpoint generateToken_loop (rand : random_source) (left : nat) (k : nat)
      (token : string) : string * nat :=
    match left with
    | O => (token, k)
    | S left' =>
        generateToken_loop rand left' (S k)
          (js_append token (js_index options (random_index rand k)))
    end.

  (** [generateToken()]: returns the token and the number of draws made so
      far by the process. *)
Definition generateToken (rand : random_source) (k : nat) : string * nat :=
    generateToken_loop rand 32 k "".

  (** The characters a-z, A-Z, 0-9. *)
Definition alphanumeric (c : ascii) : bool :=
    let n := N.to_nat (N_of_ascii c) in
    ((97 <=? n) && (n <=? 122) || (65 <=? n) && (n <=? 90)
     || (48 <=? n) && (n <=? 57))%nat.

  (** Two sources for running examples: one that always returns 0.5, one
      that always returns the largest value below one, [1 - 2^-53]. *)
Definition half_source : random_source :=
    fun _ => {| Double.mant := 2 ^ 52; Double.expo := 1021 |}.

Definition top_source : random_source :=
    fun _ => {| Double.mant := 2 ^ 53 - 1; Double.expo := 1021 |}.

End Token.

(* ===================================================================== *)
(** * Express responses                                                   *)
(* ===================================================================== *)

Module Express.

  (** A JSON object whose members are strings. *)
Definition Json := list (string * string).

  (** What the handler has written on [res]. *)
Record Response := { statusCode : Z; body : Json }.

  (** [res] as the handler receives it: status 200, nothing written. *)
Definition res : Response := {| statusCode := 200; body := [] |}.

  (** An object literal; a member whose value is [undefined] is dropped
      when the object is serialised. *)
Fixpoint object (members : list (string * option string)) : Json :=
    match members with
    | [] => []
    | (key, Some value) :: rest => (key, value) :: object rest
    | (_, None) :: rest => object rest
    end.

  (** [res.status(code)] *)
Definition status (code : Z) (r : Response) : Response :=
    {| statusCode := code; body := body r |}.

  (** [res.json(obj)] *)
Definition json (members : list (string * option string)) (r : Response)
      : Response :=
    {| statusCode := statusCode r; body := object members |}.

  (** [res.send(obj)] with an object argument answers with its JSON. *)
Definition send := json.

End Express.

(* ===================================================================== *)
(** * Token-based authentication over the in-memory [users] array         *)
(* ===================================================================== *)

Module Users.

  (** A member of a request body or header: a string, or [undefined]
      ([None]) when the client did not send it. *)
Definition field := option string.

  (** [a === b] on such values. *)
Definition strict_eq (a b : field) : bool :=
    match a, b with
    | Some x, Some y => String.eqb x y
    | None, None => true
    | _, _ => false
    end.

  (** An element of [users]: [{ username, password }], with [token] added
      by a successful sign-in. *)
Record User := { username : field; password : field; token : field }.

  (** The process state: the [users] array and the number of
      [Math.random()] calls made so far. *)
Record Server := { users : list User; draws : nat }.

  (** [const users = []] *)
Definition boot : Server := {| users := []; draws := 0 |}.

Inductive Request :=
  | PostSignup (username password : field)
  | PostSignin (username password : field)
  | GetMe (token : field).

  (** [u => u.username === username && u.password === password] *)
Definition credentials (name pass : field) (u : User) : bool :=
    strict_eq (username u) name && strict_eq (password u) pass.

  (** [u => u.token === token] *)
Definition holds (tok : field) (u : User) : bool :=
    strict_eq (token u) tok.

  (** [foundUser.token = token] where [foundUser] is the element returned
      by [users.find(p)]: the first element satisfying [p] is updated in
      place. *)
Fixpoint assign_token (p : User -> bool) (tok : string) (l : list User)
      : list User :=
    match l with
    | [] => []
    | u :: rest =>
        if p u
        then {| username := username u; password := password u;
                token := Some tok |} :: rest
        else u :: assign_token p tok rest
    end.

  (** [users.push({ username, password })] *)
Definition push (name pass : field) (l : list User) : list User :=
    (l ++ [{| username := name; password := pass; token := None |}])%list.

End Users.

(** README.md, "Token-Based Authentication". *)
Module ReadmeToken.
Import Users Express.

Definition signup (name pass : field) (s : Server) : Response * Server :=
    (send [("message", Some "You have signed up")] res,
     {| users := push name pass (users s); draws := draws s |}).

Definition signin (rand : Token.random_source) (name pass : field)
      (s : Server) : Response * Server :=
    match List.find (credentials name pass) (users s) with
    | Some foundUser =>
        let (token, k) := Token.generateToken rand (draws s) in
        (json [("token", Some token)] res,
         {| users := assign_token (credentials name pass) token (users s);
            draws := k |})
    | None =>
        (send [("message", Some "Invalid credentials")] (status 403 res), s)
    end.

Definition me (tok : field) (s : Server) : Response * Server :=
    match List.find (holds tok) (users s) with
    | Some foundUser => (json [("username", username foundUser)] res, s)
    | None => (json [("message", Some "Token Invalid")] res, s)
    end.

Definition handle (rand : Token.random_source) (req : Request)
      (s : Server) : Response * Server :=
    match req with
    | PostSignup name pass => signup name pass s
    | PostSignin name pass => signin rand name pass s
    | GetMe tok => me tok s
    end.

End ReadmeToken.

(** NODEJS-README.md, "Token-Based Authentication". *)
Module NodeToken.
Import Users Express.

Definition signup (name pass : field) (s : Server) : Response * Server :=
    (json [("message", Some "User created")] res,
     {| users := push name pass (users s); draws := draws s |}).

Definition signin (rand : Token.random_source) (name pass : field)
      (s : Server) : Response * Server :=
    match List.find (credentials name pass) (users s) with
    | Some user =>
        let (token, k) := Token.generateToken rand (draws s) in
        (json [("token", Some token)] res,
         {| users := assign_token (credentials name pass) token (users s);
            draws := k |})
    | None =>
        (json [("message", Some "Invalid credentials")] (status 403 res), s)
    end.

Definition me (tok : field) (s : Server) : Response * Server :=
    match List.find (holds tok) (users s) with
    | Some user => (json [("username", username user)] res, s)
    | None => (json [("message", Some "Unauthorized")] (status 401 res), s)
    end.

Definition handle (rand : Token.random_source) (req : Request)
      (s : Server) : Response * Server :=
    match req with
    | PostSignup name pass => signup name pass s
    | PostSignin name pass => signin rand name pass s
    | GetMe tok => me tok s
    end.

End NodeToken.

(** Feeding a server a sequence of requests. *)
Module Session.
Import Users Express.

Definition handler := Request -> Server -> Response * Server.

  (** The responses, in order, and the final state. *)
Fixpoint run (h : handler) (reqs : list Request) (s : Server)
      : list Response * Server :=
    match reqs with
    | [] => ([], s)
    | req :: rest =>
        let (r, s') := h req s in
        let (rs, s'') := run h rest s' in
        (r :: rs, s'')
    end.

End Session.

(* ===================================================================== *)
(** * Third-party libraries used by the sign-in handlers                  *)
(* ===================================================================== *)

(** [jsonwebtoken], [bcrypt] and the salt that [bcrypt.hash] draws are not
    code of this repository: the handlers take them as parameters. *)
Module Lib.

Record t := {
    (** [jwt.sign({ username }, secret)] *)
    jwt_sign : option string -> string -> string;
    (** [bcrypt.hash(password, saltRounds)] with the [k]-th salt drawn by
        the process *)
    bcrypt_hash : string -> Z -> nat -> string;
    (** [bcrypt.compare(password, hash)] *)
    bcrypt_compare : string -> string -> bool
  }.

  (** A stand-in used to run examples: the hash records the salt index and
      the password, and [compare] accepts a hash exactly when it was made
      from the password. *)
Definition strip_salt (h : string) : string :=
    match String.index 0 "$" h with
    | Some i => String.substring (S i) (String.length h - S i) h
    | None => h
    end.

Definition demo : t := {|
    jwt_sign := fun name secret =>
      match name with
      | Some n => (secret ++ "." ++ n)%string
      | None => secret
      end;
    bcrypt_hash := fun password _ k =>
      (String (ascii_of_nat (48 + k)) "$" ++ password)%string;
    bcrypt_compare := fun password h => String.eqb (strip_salt h) password
  |}.

End Lib.

(* ===================================================================== *)
(** * JWT sign-in over the in-memory [users] array                        *)
(* ===================================================================== *)

(** README.md and NODEJS-README.md, "JWT Implementation": the handler reads
    the [users] array of the token-based snippet and signs a token. *)
Module JwtMemory.
Import Users Express.

Definition JWT_SECRET : string := "your-secret-key".

  (** README.md, [app.post('/signin', ...)] of section 8. *)
Definition readme_signin (lib : Lib.t) (name pass : field)
      (users : list User) : Response :=
    match List.find (credentials name pass) users with
    | Some user => json [("token", Some (Lib.jwt_sign lib name JWT_SECRET))] res
    | None => json [("message", Some "Invalid credentials")] (status 403 res)
    end.

  (** NODEJS-README.md, the same handler. *)
Definition node_signin (lib : Lib.t) (name pass : field)
      (users : list User) : Response :=
    match List.find (credentials name pass) users with
    | Some user => json [("token", Some (Lib.jwt_sign lib name JWT_SECRET))] res
    | None => json [("message", Some "Invalid credentials")] (status 403 res)
    end.

End JwtMemory.

(* ===================================================================== *)
(** * Sign-up and sign-in over a MongoDB collection                       *)
(* ===================================================================== *)

(** The [User] model: documents [{ username: String, password: String }] of
    one collection, in insertion order. *)
Module Mongoose.

Record Doc := { username : string; password : string }.

Definition Collection := list Doc.

  (** [User.findOne({ username })]: the first document with that username,
      [null] when there is none. *)
Definition findOne (name : string) (c : Collection) : option Doc :=
    List.find (fun d => String.eqb (username d) name) c.

  (** [new User(doc).save()] *)
Definition save (d : Doc) (c : Collection) : Collection := (c ++ [d])%list.

End Mongoose.

Module MongoAuth.
Import Mongoose Express.

Definition JWT_SECRET : string := "your-secret-key".

  (** The sign-up handler shared by the MongoDB snippets: hash with ten
      salt rounds, save, answer with [message].  [k] counts the salts drawn
      by the process. *)
Definition signup_with (message : string) (lib : Lib.t)
      (name pass : string) (k : nat) (c : Collection)
      : Response * (Collection * nat) :=
    let hashedPassword := Lib.bcrypt_hash lib pass 10 k in
    let user := {| username := name; password := hashedPassword |} in
    (json [("message", Some message)] res, (save user c, S k)).

  (** MONGODB-README.md section 4 and README.md section 11. *)
Definition mongodb_auth_signup := signup_with "User created successfully".
Definition readme_complete_signup := signup_with "User created successfully".
  (** README.md section 10, MONGODB-README.md "Password Verification" and
      README.md "Problem 1". *)
Definition readme_bcrypt_signup := signup_with "User created".
Definition mongodb_verify_signup := signup_with "User created".
Definition readme_problem1_signup := signup_with "User created".

  (** MONGODB-README.md section 4, "User Authentication with MongoDB". *)
Definition mongodb_auth_signin (lib : Lib.t) (name pass : string)
      (c : Collection) : Response :=
    match findOne name c with
    | None => json [("message", Some "Invalid credentials")] (status 403 res)
    | Some user =>
        let isValid := Lib.bcrypt_compare lib pass (password user) in
        if isValid
        then json [("message", Some "Login successful")] res
        else json [("message", Some "Invalid credentials")] (status 403 res)
    end.

  (** MONGODB-README.md section 5, "JWT Authentication with MongoDB". *)
Definition mongodb_jwt_signin (lib : Lib.t) (name pass : string)
      (c : Collection) : Response :=
    match findOne name c with
    | None => json [("message", Some "Invalid credentials")] (status 403 res)
    | Some user =>
        let isValid := Lib.bcrypt_compare lib pass (password user) in
        if isValid
        then json [("token", Some (Lib.jwt_sign lib (Some name) JWT_SECRET))] res
        else json [("message", Some "Invalid credentials")] (status 403 res)
    end.

  (** MONGODB-README.md, "Password Verification". *)
Definition mongodb_verify_signin (lib : Lib.t) (name pass : string)
      (c : Collection) : Response :=
    match findOne name c with
    | None => json [("message", Some "User not found")] (status 403 res)
    | Some user =>
        let isValid := Lib.bcrypt_compare lib pass (password user) in
        if isValid
        then json [("token", Some (Lib.jwt_sign lib (Some name) JWT_SECRET))] res
        else json [("message", Some "Invalid password")] (status 403 res)
    end.

  (** README.md section 10, "Bcrypt Implementation". *)
Definition readme_bcrypt_signin (lib : Lib.t) (name pass : string)
      (c : Collection) : Response :=
    match findOne name c with
    | None => json [("message", Some "User not found")] (status 403 res)
    | Some user =>
        let isValid := Lib.bcrypt_compare lib pass (password user) in
        if isValid
        then json [("token", Some (Lib.jwt_sign lib (Some name) JWT_SECRET))] res
        else json [("message", Some "Invalid password")] (status 403 res)
    end.

  (** README.md section 11, "Complete Auth System". *)
Definition readme_complete_signin (lib : Lib.t) (name pass : string)
      (c : Collection) : Response :=
    match findOne name c with
    | None => json [("message", Some "Invalid credentials")] (status 403 res)
    | Some user =>
        let isValid := Lib.bcrypt_compare lib pass (password user) in
        if isValid
        then json [("token", Some (Lib.jwt_sign lib (Some name) "secret-key"))] res
        else json [("message", Some "Invalid credentials")] (status 403 res)
    end.

  (** README.md, "Problem 1: Implement Authentication System": two early
      returns, then the token. *)
Definition readme_problem1_signin (lib : Lib.t) (name pass : string)
      (c : Collection) : Response :=
    match findOne name c with
    | None => json [("error", Some "Invalid")] (status 403 res)
    | Some user =>
        let isValid := Lib.bcrypt_compare lib pass (password user) in
        if negb isValid
        then json [("error", Some "Invalid")] (status 403 res)
        else json [("token", Some (Lib.jwt_sign lib (Some name) "secret"))] res
    end.

End MongoAuth.

(** The sign-in handlers of the corpus, by snippet. *)
Module Signin.
Import Express.

Inductive memory_snippet :=
  | ReadmeTokenAuth | NodeTokenAuth | ReadmeJwt | NodeJwt.

Inductive mongo_snippet :=
  | MongodbAuth | MongodbJwt | MongodbVerify
  | ReadmeBcrypt | ReadmeComplete | ReadmeProblem1.

Definition memory_signin (sn : memory_snippet) (lib : Lib.t)
      (rand : Token.random_source) (name pass : Users.field)
      (s : Users.Server) : Response :=
    match sn with
    | ReadmeTokenAuth => fst (ReadmeToken.signin rand name pass s)
    | NodeTokenAuth => fst (NodeToken.signin rand name pass s)
    | ReadmeJwt => JwtMemory.readme_signin lib name pass (Users.users s)
    | NodeJwt => JwtMemory.node_signin lib name pass (Users.users s)
    end.

Definition mongo_signin (sn : mongo_snippet)
      : Lib.t -> string -> string -> Mongoose.Collection -> Response :=
    match sn with
    | MongodbAuth => MongoAuth.mongodb_auth_signin
    | MongodbJwt => MongoAuth.mongodb_jwt_signin
    | MongodbVerify => MongoAuth.mongodb_verify_signin
    | ReadmeBcrypt => MongoAuth.readme_bcrypt_signin
    | ReadmeComplete => MongoAuth.readme_complete_signin
    | ReadmeProblem1 => MongoAuth.readme_problem1_signin
    end.

  (** What the claim calls a stored user matching the submitted pair. *)
Definition memory_match (name pass : Users.field) (u : Users.User) : Prop :=
    Users.username u = name /\ Users.password u = pass.



  (** A body that carries a token or a success message. *)
Definition success_body (b : Json) : Prop :=
    (exists tok, b = [("token", tok)])
    \/ b = [("message", "Login successful")].


End Signin.

(** Collections and stores used in the worked examples. *)
Module Samples.

  (** Two sign-ups with the same username and different passwords, through
      the sign-up handler of MONGODB-README.md section 4. *)
Definition two_johns : Mongoose.Collection :=
    let '(_, (c1, k1)) :=
      MongoAuth.mongodb_auth_signup Lib.demo "john" "first" 0%nat [] in
    let '(_, (c2, _)) :=
      MongoAuth.mongodb_auth_signup Lib.demo "john" "second" k1 c1 in
    c2.

  (** One sign-up. *)
Definition one_john : Mongoose.Collection :=
    let '(_, (c1, _)) :=
      MongoAuth.mongodb_auth_signup Lib.demo "john" "first" 0%nat [] in
    c1.

End Samples.

(* ===================================================================== *)
(** * Comparing the two token-based servers                               *)
(* ===================================================================== *)

Module Compare.
Import Users Express.




End Compare.

(* ===================================================================== *)
(** * Rendered React elements                                             *)
(* ===================================================================== *)

Module Dom.

  (** What a component returns: text, a number written with [{n}], a host
      element with children, a [<button>] with its label and [onClick]
      handler, or a fragment.  [H] is the type of handlers. *)
#[warnings="-register-all"] Inductive node (H : Type) : Type :=
  | Text (s : string)
  | Num (n : Z)
  | Elem (tag : string) (kids : list (node H))
  | Button (label : string) (onClick : H)
  | Fragment (kids : list (node H)).

Arguments Text {H} s.
Arguments Num {H} n.
Arguments Elem {H} tag kids.
Arguments Button {H} label onClick.
Arguments Fragment {H} kids.

  (** The numbers on screen, in document order. *)
Fixpoint numbers {H} (n : node H) : list Z :=
    match n with
    | Text _ => []
    | Num z => [z]
    | Elem _ kids => List.flat_map numbers kids
    | Button _ _ => []
    | Fragment kids => List.flat_map numbers kids
    end.

  (** The handlers of the buttons with a given label, in document order. *)
Fixpoint handlers {H} (label : string) (n : node H) : list H :=
    match n with
    | Text _ => []
    | Num _ => []
    | Elem _ kids => List.flat_map (handlers label) kids
    | Button l h => if String.eqb l label then [h] else []
    | Fragment kids => List.flat_map (handlers label) kids
    end.

End Dom.

(* ===================================================================== *)
(** * The counter in three state-management styles                        *)
(* ===================================================================== *)

Module Counter.
Import Dom.

  (** A call [setCount(v)] made by a click handler. *)
Inductive update := SetCount (v : Z).

  (** A click handler [() => setCount(...)]. *)
Definition handler := unit -> update.

  (** Prop drilling (src/unnamed/part_000). *)
Module PropDrilling.

Definition Buttons (setCount : Z -> update) (count : Z) : node handler :=
      Fragment [ Button "desc" (fun _ => setCount (count - 1));
                 Button "inc" (fun _ => setCount (count + 1)) ].

Definition Count (count : Z) (setCount : Z -> update) : node handler :=
      Elem "div" [ Num count; Buttons setCount count ].

    (** [App] with [count] the current value of [useState(0)]. *)
Definition App (count : Z) : node handler :=
      Elem "div" [ Count count SetCount ].

Definition initial : Z := 0.

End PropDrilling.

  (** Context API (src/24_Context/vite-project/src/App.jsx). *)
Module Context.

    (** The value given to [CountContext.Provider]. *)
Record value := { count : Z; setCount : Z -> update }.

Definition CountReader (ctx : value) : node handler :=
      Elem "div" [ Num (count ctx) ].

Definition Buttons (ctx : value) : node handler :=
      Fragment [ Button "desc" (fun _ => setCount ctx (count ctx - 1));
                 Button "inc" (fun _ => setCount ctx (count ctx + 1)) ].

Definition Count (ctx : value) : node handler :=
      Elem "div" [ CountReader ctx; Buttons ctx ].

    (** [App] with [c] the current value of [useState(0)]; the provider
        hands [{count, setCount}] to the components below it. *)
Definition App (c : Z) : node handler :=
      let provided := {| count := c; setCount := SetCount |} in
      Elem "div" [ Fragment [ Count provided ] ].

Definition initial : Z := 0.

End Context.

  (** Recoil (src/25_Recoil/vite-project/src/App.jsx).  [countAtom] comes
      from ./store/atom/count.jsx, which is not among the sources: its
      default value is the parameter [countAtom_default]. *)
Module Recoil.

Definition CountReader (atom : Z) : node handler :=
      Elem "div" [ Num atom ].

Definition Buttons (atom : Z) : node handler :=
      Elem "div" [ Button "-" (fun _ => SetCount (atom - 1));
                   Button "+" (fun _ => SetCount (atom + 1)) ].

Definition Count (atom : Z) : node handler :=
      Elem "div" [ CountReader atom; Buttons atom ].

    (** [App] with [atom] the value of [countAtom] in the [RecoilRoot]. *)
Definition App (atom : Z) : node handler :=
      Fragment [ Count atom ].

Definition initial (countAtom_default : Z) : Z := countAtom_default.

End Recoil.

Inductive style := Drilled | Provided | Atom.

Inductive press := Decrement | Increment.

Definition render (st : style) (c : Z) : node handler :=
    match st with
    | Drilled => PropDrilling.App c
    | Provided => Context.App c
    | Atom => Recoil.App c
    end.

  (** The text on the button. *)
Definition label (st : style) (p : press) : string :=
    match st, p with
    | Atom, Decrement => "-"
    | Atom, Increment => "+"
    | _, Decrement => "desc"
    | _, Increment => "inc"
    end.

Definition initial (countAtom_default : Z) (st : style) : Z :=
    match st with
    | Drilled => PropDrilling.initial
    | Provided => Context.initial
    | Atom => Recoil.initial countAtom_default
    end.

  (** A click runs the handler of the button as it was last rendered; the
      state setter replaces the state, and the tree is rendered again
      before the next click. *)
Definition click (st : style) (p : press) (c : Z) : Z :=
    match handlers (label st p) (render st c) with
    | h :: _ => match h tt with SetCount v => v end
    | [] => c
    end.

Definition clicks (st : style) (ps : list press) (c : Z) : Z :=
    List.fold_left (fun c p => click st p c) ps c.

  (** The numbers on screen after the clicks. *)
Definition display (countAtom_default : Z) (st : style) (ps : list press)
      : list Z :=
    numbers (render st (clicks st ps (initial countAtom_default st))).

  (** Increments minus decrements. *)
Definition net (ps : list press) : Z :=
    List.fold_left (fun n p => match p with
                               | Increment => n + 1
                               | Decrement => n - 1
                               end) ps 0.

End Counter.

(* ===================================================================== *)
(** * ErrorBoundary (src/28_ReactAdvancedPatterns/errorBoundary.jsx)      *)
(* ===================================================================== *)

Module ErrorBoundary.
Import Dom.

Record state := { hasError : bool }.

  (** [props.children] *)
Record props := { children : node unit }.

  (** What [console.error] has printed: the error and the component info. *)
Definition console := list (string * string).

  (** A mounted boundary. *)
Record instance := { this_props : props; this_state : state; log : console }.

  (** [constructor(props)] *)
Definition constructor (p : props) : instance :=
    {| this_props := p; this_state := {| hasError := false |}; log := [] |}.

  (** [static getDerivedStateFromError(error)] *)
Definition getDerivedStateFromError (error : string) : state :=
    {| hasError := true |}.

  (** [componentDidCatch(error, info)] *)
Definition componentDidCatch (error info : string) (i : instance) : instance :=
    {| this_props := this_props i; this_state := this_state i;
       log := (log i ++ [(error, info)])%list |}.

Definition fallback : node unit :=
    Elem "div" [ Elem "h2" [ Text "Something went wrong." ] ].

  (** [render()] *)
Definition render (i : instance) : node unit :=
    if hasError (this_state i) then fallback else children (this_props i).

  (** What React does to a mounted boundary: a descendant throws (the state
      returned by [getDerivedStateFromError] replaces the state, then
      [componentDidCatch] runs), or the parent passes new children. *)
Inductive event :=
  | ChildThrows (error info : string)
  | NewChildren (c : node unit).

Definition step (i : instance) (e : event) : instance :=
    match e with
    | ChildThrows error info =>
        componentDidCatch error info
          {| this_props := this_props i;
             this_state := getDerivedStateFromError error;
             log := log i |}
    | NewChildren c =>
        {| this_props := {| children := c |}; this_state := this_state i;
           log := log i |}
    end.

Definition run (i : instance) (es : list event) : instance :=
    List.fold_left step es i.

End ErrorBoundary.

(* ===================================================================== *)
(** * useDebounce (README.md, "useDebounce Hook")                         *)
(* ===================================================================== *)

(** The hook together with the part of the browser it talks to: the clock
    and the table of pending timeouts.  Time is counted in milliseconds. *)
Module Debounce.

  (** A pending [setTimeout(() => setDebouncedValue(value), delay)]: its
      id, the time at which it fires and the [value] its callback holds. *)
Record timer := { id : nat; due : nat; held : string }.

Record world := {
    (** [debouncedValue], the state of [useState(value)] *)
    debouncedValue : string;
    (** the dependencies [[value, delay]] of the last effect that ran *)
    deps : string * nat;
    (** [timer], as captured by the cleanup of the last effect that ran *)
    effect_timer : nat;
    now : nat;
    next_id : nat;
    pending : list timer;
    (** ids of the pending timeouts removed by [clearTimeout], in order *)
    cleared : list nat
  }.

  (** [setTimeout(callback, delay)]: returns the new id. *)
Definition setTimeout (value : string) (delay : nat) (w : world)
      : nat * world :=
    (next_id w,
     {| debouncedValue := debouncedValue w; deps := deps w;
        effect_timer := effect_timer w; now := now w;
        next_id := S (next_id w);
        pending := (pending w ++ [{| id := next_id w; due := now w + delay;
                                     held := value |}])%list;
        cleared := cleared w |}).

  (** [clearTimeout(t)]: removes the timeout if it is still pending, does
      nothing otherwise. *)
Definition clearTimeout (t : nat) (w : world) : world :=
    {| debouncedValue := debouncedValue w; deps := deps w;
       effect_timer := effect_timer w; now := now w; next_id := next_id w;
       pending := List.filter (fun p => negb (Nat.eqb (id p) t)) (pending w);
       cleared := if existsb (fun p => Nat.eqb (id p) t) (pending w)
                  then (cleared w ++ [t])%list else cleared w |}.

  (** The body of the effect: schedule the update, remember the timer for
      the cleanup. *)
Definition effect (value : string) (delay : nat) (w : world) : world :=
    let (t, w') := setTimeout value delay w in
    {| debouncedValue := debouncedValue w'; deps := (value, delay);
       effect_timer := t; now := now w'; next_id := next_id w';
       pending := pending w'; cleared := cleared w' |}.

  (** The cleanup returned by the effect: [() => clearTimeout(timer)]. *)
Definition cleanup (w : world) : world := clearTimeout (effect_timer w) w.

  (** First render of a component calling [useDebounce(value, delay)] at
      time [t0]: the state starts at [value] and the effect runs. *)
Definition mount (t0 : nat) (value : string) (delay : nat) : world :=
    effect value delay
      {| debouncedValue := value; deps := (value, delay); effect_timer := 0;
         now := t0; next_id := 0; pending := []; cleared := [] |}.

  (** A later render with [useDebounce(value, delay)]: when a dependency
      has changed the previous cleanup runs, then the effect. *)
Definition render (value : string) (delay : nat) (w : world) : world :=
    if String.eqb (fst (deps w)) value && Nat.eqb (snd (deps w)) delay
    then w
    else effect value delay (cleanup w).

  (** Timeouts fire in the order of their due time, earlier ids first. *)
Fixpoint insert_due (t : timer) (l : list timer) : list timer :=
    match l with
    | [] => [t]
    | u :: rest =>
        if Nat.leb (due u) (due t) then u :: insert_due t rest
        else t :: u :: rest
    end.

Definition by_due (l : list timer) : list timer :=
    List.fold_left (fun acc t => insert_due t acc) l [].

  (** The callback of a timeout: [setDebouncedValue(value)]. *)
Definition fire (w : world) (t : timer) : world :=
    {| debouncedValue := held t; deps := deps w;
       effect_timer := effect_timer w; now := now w; next_id := next_id w;
       pending := List.filter (fun p => negb (Nat.eqb (id p) (id t))) (pending w);
       cleared := cleared w |}.

  (** [ms] milliseconds pass without a render: the timeouts that have come
      due fire. *)
Definition elapse (ms : nat) (w : world) : world :=
    let later :=
      {| debouncedValue := debouncedValue w; deps := deps w;
         effect_timer := effect_timer w; now := now w + ms;
         next_id := next_id w; pending := pending w; cleared := cleared w |} in
    List.fold_left fire
      (by_due (List.filter (fun p => Nat.leb (due p) (now w + ms)) (pending w)))
      later.


Inductive event :=
  | Render (value : string) (delay : nat)
  | Elapse (ms : nat).

Definition step (w : world) (e : event) : world :=
    match e with
    | Render value delay => render value delay w
    | Elapse ms => elapse ms w
    end.

Definition run (w : world) (es : list event) : world :=
    List.fold_left step es w.

  (** What holds of every state the hook can reach: at most one timeout is
      pending; it is the one the cleanup will clear, it holds the current
      [value] and it is due within [delay]; with no timeout pending the
      debounced value is the current [value]. *)
Definition settled (w : world) : Prop :=
    match pending w with
    | [] => debouncedValue w = fst (deps w)
    | [t] => id t = effect_timer w /\ held t = fst (deps w)
             /\ (due t <= now w + snd (deps w))%nat
    | _ => False
    end.

End Debounce.

(* ===================================================================== *)
(** * useFetch (README.md, "useFetch Hook")                               *)
(* ===================================================================== *)

Module Fetch.

  (** [{ data, loading, error }]; [null] is [None]. *)
Record result := { data : option string; loading : bool; error : option string }.

  (** The hook and the requests it has started and not yet heard from. *)
Record hook := {
    state : result;
    (** the dependency [[url]] of the last effect that ran *)
    url : string;
    (** requests in flight: id and url *)
    inflight : list (nat * string);
    next_request : nat
  }.

  (** [setData(d)], [setLoading(b)], [setError(e)] *)
Definition setData (d : string) (r : result) : result :=
    {| data := Some d; loading := loading r; error := error r |}.
Definition setLoading (b : bool) (r : result) : result :=
    {| data := data r; loading := b; error := error r |}.
Definition setError (e : string) (r : result) : result :=
    {| data := data r; loading := loading r; error := Some e |}.

  (** The effect: [setLoading(true); fetch(url)...]. *)
Definition effect (u : string) (h : hook) : hook :=
    {| state := setLoading true (state h); url := u;
       inflight := (inflight h ++ [(next_request h, u)])%list;
       next_request := S (next_request h) |}.

  (** First render of a component calling [useFetch(url)]. *)
Definition mount (u : string) : hook :=
    effect u {| state := {| data := None; loading := true; error := None |};
                url := u; inflight := []; next_request := 0 |}.

  (** A later render: the effect runs again when [url] has changed.  The
      effect returns no cleanup. *)
Definition render (u : string) (h : hook) : hook :=
    if String.eqb (url h) u then h else effect u h.

  (** How the promise chain of one request ends: the parsed JSON arrives,
      or [fetch] or [res.json()] rejects. *)
Inductive outcome := Resolved (json : string) | Rejected (err : string).

  (** The request [id] settles: the second [.then] or the [.catch] runs. *)
Definition settle (id : nat) (o : outcome) (h : hook) : hook :=
    if existsb (fun r => Nat.eqb (fst r) id) (inflight h) then
      {| state :=
           match o with
           | Resolved d => setLoading false (setData d (state h))
           | Rejected e => setLoading false (setError e (state h))
           end;
         url := url h;
         inflight := List.filter (fun r => negb (Nat.eqb (fst r) id)) (inflight h);
         next_request := next_request h |}
    else h.

Inductive event :=
  | Render (u : string)
  | Settle (id : nat) (o : outcome).

Definition step (h : hook) (e : event) : hook :=
    match e with
    | Render u => render u h
    | Settle id o => settle id o h
    end.

Definition run (h : hook) (es : list event) : hook :=
    List.fold_left step es h.

End Fetch.

(* ===================================================================== *)
(** * The authentication examples side by side                            *)
(* ===================================================================== *)

(** Each complete server example runs as a process of its own.  The
    token-based ones keep [users] in memory; the MongoDB ones keep the
    [User] collection in the database named by their connection string. *)
Module World.

Inductive token_example := ReadmeTokenEx | NodeTokenEx.

Inductive mongo_example := MongodbAuthEx | ReadmeCompleteEx | ReadmeProblem1Ex.

Inductive example :=
  | TokenEx (ex : token_example)
  | MongoEx (ex : mongo_example).

#[global] Instance token_example_eq_dec : EqDecision token_example.
Proof. solve_decision. Defined.
#[global] Instance mongo_example_eq_dec : EqDecision mongo_example.
Proof. solve_decision. Defined.
#[global] Instance example_eq_dec : EqDecision example.
Proof. solve_decision. Defined.

  (** The argument of [mongoose.connect]. *)
Definition connection (ex : mongo_example) : string :=
    match ex with
    | MongodbAuthEx => "mongodb://localhost:27017/authapp"
    | ReadmeCompleteEx => "mongodb://localhost:27017/authapp"
    | ReadmeProblem1Ex => "mongodb://localhost:27017/auth"
    end.

Definition database (ex : example) : option string :=
    match ex with
    | TokenEx _ => None
    | MongoEx m => Some (connection m)
    end.

Record world := {
    (** the memory of each process: [users] and the [Math.random()] count *)
    memory : example -> Users.Server;
    (** the salts [bcrypt.hash] has drawn for each process *)
    salts : example -> nat;
    (** the [User] collection of each database, by connection string *)
    databases : gmap string Mongoose.Collection
  }.


  (** The collection behind a connection string; a database that was never
      written has no documents. *)
Definition collection (url : string) (w : world) : Mongoose.Collection :=
    default [] (databases w !! url).

Inductive mongo_request :=
  | Signup (username password : string)
  | Signin (username password : string).

Inductive event :=
  | Boot (ex : example)
  | TokenRequest (ex : token_example) (r : Users.Request)
  | MongoRequest (ex : mongo_example) (r : mongo_request).


Definition token_handle (ex : token_example)
      : Token.random_source -> Users.Request -> Users.Server
        -> Express.Response * Users.Server :=
    match ex with
    | ReadmeTokenEx => ReadmeToken.handle
    | NodeTokenEx => NodeToken.handle
    end.

Definition mongo_signup (ex : mongo_example) :=
    match ex with
    | MongodbAuthEx => MongoAuth.mongodb_auth_signup
    | ReadmeCompleteEx => MongoAuth.readme_complete_signup
    | ReadmeProblem1Ex => MongoAuth.readme_problem1_signup
    end.

Definition mongo_signin (ex : mongo_example) :=
    match ex with
    | MongodbAuthEx => MongoAuth.mongodb_auth_signin
    | ReadmeCompleteEx => MongoAuth.readme_complete_signin
    | ReadmeProblem1Ex => MongoAuth.readme_problem1_signin
    end.

  (** One event: the response, if the event is a request, and the world
      after it.  Starting a process gives it a fresh memory; the database
      is not touched. *)
Definition step (rand : Token.random_source) (lib : Lib.t) (w : world)
      (e : event) : option Express.Response * world :=
    match e with
    | Boot ex =>
        (None,
         {| memory := <[ex := Users.boot]> (memory w); salts := salts w;
            databases := databases w |})
    | TokenRequest ex r =>
        let (resp, s) := token_handle ex rand r (memory w (TokenEx ex)) in
        (Some resp,
         {| memory := <[TokenEx ex := s]> (memory w); salts := salts w;
            databases := databases w |})
    | MongoRequest ex (Signup name pass) =>
        let '(resp, (c, k)) :=
          mongo_signup ex lib name pass (salts w (MongoEx ex))
            (collection (connection ex) w) in
        (Some resp,
         {| memory := memory w; salts := <[MongoEx ex := k]> (salts w);
            databases := <[connection ex := c]> (databases w) |})
    | MongoRequest ex (Signin name pass) =>
        (Some (mongo_signin ex lib name pass (collection (connection ex) w)), w)
    end.


Definition run (rand : Token.random_source) (lib : Lib.t) (w : world)
      (es : list event) : world :=
    List.fold_left (fun w e => snd (step rand lib w e)) es w.

  (** Two examples that have no storage in common. *)
Definition separate (a b : example) : Prop :=
    a <> b /\ (database a = None \/ database b = None
               \/ database a <> database b).


End World.

(* ===================================================================== *)
(** * Import lists of the JSX files                                       *)
(* ===================================================================== *)

Module Imports.

  (** A path inside the repository, as its segments. *)
Definition path := list string.

  (** A JSX file among the sources: its place under src/ and the module
      specifiers of its [import] lines, in order. *)
Record source_file := { source : string; imports : list string }.

  (** Split a specifier or a path at "/". *)
Fixpoint segments_from (current : string) (s : string) : list string :=
    match s with
    | EmptyString => [current]
    | String c rest =>
        if Ascii.eqb c "/"%char
        then current :: segments_from EmptyString rest
        else segments_from (current ++ String c EmptyString)%string rest
    end.

Definition segments (s : string) : list string := segments_from EmptyString s.

  (** A relative specifier starts with "./" or "../"; any other specifier
      names a package. *)
Definition relative (spec : string) : bool :=
    match segments spec with
    | first :: _ :: _ => String.eqb first "." || String.eqb first ".."
    | _ => false
    end.

  (** Walk the segments of a relative specifier from a directory: "." stays,
      ".." goes up (and fails above the repository root). *)
Fixpoint walk (dir : path) (segs : list string) : option path :=
    match segs with
    | [] => Some dir
    | seg :: rest =>
        if String.eqb seg "." then walk dir rest
        else if String.eqb seg ".." then
          match List.rev dir with
          | [] => None
          | _ :: up => walk (List.rev up) rest
          end
        else walk (dir ++ [seg])%list rest
    end.

  (** The extensions the bundler tries on a specifier, in its order. *)
Definition extensions : list string :=
    [".mjs"; ".js"; ".mts"; ".ts"; ".jsx"; ".tsx"; ".json"].

  (** [p] with a suffix on its last segment. *)
Fixpoint with_suffix (p : path) (suffix : string) : path :=
    match p with
    | [] => []
    | [name] => [(name ++ suffix)%string]
    | seg :: rest => seg :: with_suffix rest suffix
    end.

  (** The files an import written in a file of directory [dir] can resolve
      to: the path itself, the path with each extension, and the index
      file of the path taken as a directory.  A package resolves to no
      file of the repository. *)
Definition candidates (dir : path) (spec : string) : list path :=
    if relative spec then
      match walk dir (segments spec) with
      | Some p =>
          p :: (List.map (with_suffix p) extensions
                ++ List.map (fun e => p ++ [("index" ++ e)%string]) extensions)%list
      | None => []
      end
    else [].

  (** The directory of a file given by its place. *)
Definition directory (f : source_file) : path :=
    List.removelast (segments (source f)).

Definition recoil_app : source_file :=
    {| source := "25_Recoil/vite-project/src/App.jsx";
       imports := ["./store/atom/count.jsx"; "recoil"] |}.

Definition context_app : source_file :=
    {| source := "24_Context/vite-project/src/App.jsx";
       imports := ["react"; "./Context.jsx"] |}.

Definition error_boundary : source_file :=
    {| source := "28_ReactAdvancedPatterns/errorBoundary.jsx";
       imports := ["react"] |}.

  (** childrenProps.jsx has no [import] line: it uses the global [React]. *)
Definition children_props : source_file :=
    {| source := "28_ReactAdvancedPatterns/childrenProps.jsx"; imports := [] |}.

  (** The three files whose names are not known: the prop-drilling counter,
      the useFetch demo and the useDebounce demo.  Their [source] is their
      place among the sources, not their place in the repository. *)
Definition prop_drilling_app : source_file :=
    {| source := "unnamed/part_000"; imports := ["react"] |}.

Definition use_fetch_app : source_file :=
    {| source := "unnamed/part_001";
       imports := ["react"; "./hooks/useFetch"] |}.

Definition use_debounce_app : source_file :=
    {| source := "unnamed/part_002";
       imports := ["react"; "./hooks/useDebounce"] |}.

Definition jsx_files : list source_file :=
    [ recoil_app; context_app; error_boundary; children_props;
      prop_drilling_app; use_fetch_app; use_debounce_app ].

  (** [p] lies in the directory [dir] or below it. *)
Definition inside (dir p : path) : Prop := exists rest, p = (dir ++ rest)%list.

End Imports.

(* ===================================================================== *)
(** * More of the authentication snippets                                 *)
(* ===================================================================== *)

(** A second stand-in for the libraries, used to run examples that need
    [bcrypt.compare(p, bcrypt.hash(p))] and [jwt.verify(jwt.sign(x))] to
    succeed for every input: the hash is the password itself and the token
    is the username behind a one-letter tag. *)
Module Cleartext.

Definition lib : Lib.t := {|
    Lib.jwt_sign := fun name _ =>
      match name with Some n => String "u" n | None => "" end;
    Lib.bcrypt_hash := fun password _ _ => password;
    Lib.bcrypt_compare := fun password h => String.eqb password h
  |}.

  (** [jwt.verify(token, secret)]: the decoded [username] member. *)
Definition jwt_verify (token secret : string) : option (option string) :=
    match token with
    | String _ n => Some (Some n)
    | EmptyString => Some None
    end.

  (** The same for payloads that always carry a username; the call throws
      ([None]) on the empty token. *)
Definition jwt_verify_username (token secret : string) : option string :=
    match token with
    | String _ n => Some n
    | EmptyString => None
    end.

End Cleartext.

(** README.md and NODEJS-README.md, "JWT Implementation": GET /me, the
    [authenticateJWT] middleware and the /protected route.
    [jwt.verify(token, secret)] is a parameter: it returns the decoded
    [username] member ([undefined] when the payload has none), or [None]
    when it throws. *)
Module JwtRoutes.
Import Users Express.

Definition verifier := string -> string -> option field.

  (** [jwt.verify(req.headers.authorization, JWT_SECRET)]; the library
      throws when the token is [undefined]. *)
Definition verify_header (verify : verifier) (authorization : field)
      : option field :=
    match authorization with
    | None => None
    | Some token => verify token JwtMemory.JWT_SECRET
    end.

  (** [app.get('/me', ...)] *)
Definition me (verify : verifier) (authorization : field) : Response :=
    match verify_header verify authorization with
    | Some username => json [("username", username)] res
    | None => json [("message", Some "Invalid token")] (status 401 res)
    end.

  (** What a middleware does with a request: answers it, or calls [next()]
      after setting [req.user]. *)
Inductive passage :=
  | Answered (r : Response)
  | Next (user : field).

  (** [!token] for a header value: [undefined] and the empty string are
      falsy. *)
Definition falsy (x : field) : bool :=
    match x with
    | None => true
    | Some s => String.eqb s ""
    end.

  (** [authenticateJWT] *)
Definition authenticateJWT (verify : verifier) (authorization : field)
      : passage :=
    if falsy authorization
    then Answered (json [("message", Some "No token provided")] (status 401 res))
    else match verify_header verify authorization with
         | Some decoded => Next decoded
         | None => Answered (json [("message", Some "Invalid token")]
                               (status 401 res))
         end.

End JwtRoutes.

(** MONGODB-README.md section 5: GET /me looks the decoded user up again.
    Reading [user.username] of a missing user throws inside the [try], so
    the [catch] answers. *)
Module MongoJwt.
Import Express.

Definition verifier := string -> string -> option string.

Definition me (verify : verifier) (authorization : option string)
      (c : Mongoose.Collection) : Response :=
    match authorization with
    | None => json [("message", Some "Invalid token")] (status 401 res)
    | Some token =>
        match verify token MongoAuth.JWT_SECRET with
        | None => json [("message", Some "Invalid token")] (status 401 res)
        | Some username =>
            match Mongoose.findOne username c with
            | Some user => json [("username", Some (Mongoose.username user))] res
            | None => json [("message", Some "Invalid token")] (status 401 res)
            end
        end
    end.

End MongoJwt.

(* ===================================================================== *)
(** * More of the React snippets                                          *)
(* ===================================================================== *)

(** Typing into a debounced input: each key stroke renders the hook with
    the new text, then some time passes. *)
Module Typing.

Definition burst (delay : nat) (keys : list (string * nat))
      : list Debounce.event :=
    List.flat_map
      (fun key => [Debounce.Render (fst key) delay; Debounce.Elapse (snd key)])
      keys.

  (** Every key stroke changes the text. *)
Fixpoint changing (previous : string) (keys : list (string * nat)) : Prop :=
    match keys with
    | [] => True
    | key :: rest => fst key <> previous /\ changing (fst key) rest
    end.

  (** The text after the key strokes. *)
Definition final (initial : string) (keys : list (string * nat)) : string :=
    List.last (List.map fst keys) initial.

End Typing.

(** README.md, [SearchInput]: the usage example of [useDebounce]. *)
Module SearchInput.

Record component := {
    (** [search], the state of [useState('')] *)
    search : string;
    (** the [useDebounce(search, 500)] call *)
    hook : Debounce.world;
    (** the dependency [[debouncedSearch]] of the last effect that ran *)
    searched : string;
    (** what [console.log('Searching for:', ...)] has printed *)
    console : list string
  }.

  (** The effect [if (debouncedSearch) console.log(...)], run after a
      render in which [debouncedSearch] differs from the last run. *)
Definition after_render (c : component) : component :=
    let debouncedSearch := Debounce.debouncedValue (hook c) in
    if String.eqb debouncedSearch (searched c) then c
    else {| search := search c; hook := hook c; searched := debouncedSearch;
            console := if String.eqb debouncedSearch "" then console c
                       else (console c ++ [debouncedSearch])%list |}.

  (** First render at time [t0]: the effect runs with the empty text. *)
Definition mount (t0 : nat) : component :=
    {| search := ""; hook := Debounce.mount t0 "" 500; searched := "";
       console := [] |}.

  (** [onChange]: [setSearch(e.target.value)] and the render that follows. *)
Definition type (value : string) (c : component) : component :=
    after_render {| search := value; hook := Debounce.render value 500 (hook c);
                    searched := searched c; console := console c |}.

  (** Time passes; a timeout that fires updates the state and renders. *)
Definition elapse (ms : nat) (c : component) : component :=
    after_render {| search := search c; hook := Debounce.elapse ms (hook c);
                    searched := searched c; console := console c |}.

Definition strokes (keys : list (string * nat)) (c : component) : component :=
    List.fold_left (fun c key => elapse (snd key) (type (fst key) c)) keys c.

End SearchInput.

(** README.md, [DataDisplay]: the usage example of [useFetch]. *)
Module DataDisplay.
Import Dom.

  (** [JSON.stringify(data)]; [data] is kept as its JSON text. *)
Definition stringify (data : option string) : string :=
    match data with
    | Some json => json
    | None => "null"
    end.

Definition render (r : Fetch.result) : node unit :=
    if Fetch.loading r then Elem "div" [Text "Loading..."]
    else match Fetch.error r with
         | Some message => Elem "div" [Text "Error: "; Text message]
         | None => Elem "div" [Text (stringify (Fetch.data r))]
         end.

  (** With no request in flight the hook is not loading. *)
Definition idle (h : Fetch.hook) : Prop :=
    Fetch.inflight h = [] -> Fetch.loading (Fetch.state h) = false.

End DataDisplay.

(** README.md, [useCounter]. *)
Module UseCounter.

  (** The argument of a [setCount] call: a value or an updater function. *)
Inductive action := SetTo (v : Z) | Update (f : Z -> Z).

  (** How React applies one queued state update. *)
Definition reduce (c : Z) (a : action) : Z :=
    match a with
    | SetTo v => v
    | Update f => f c
    end.

  (** What the hook returns; the three functions are given by the
      [setCount] call they make. *)
Record api := { count : Z; increment : action; decrement : action;
                  reset : action }.

  (** [useCounter(initialValue = 0)] in a render where the state is
      [state]. *)
Definition useCounter (initialValue : option Z) (state : Z) : api :=
    let initialValue := match initialValue with Some v => v | None => 0 end in
    {| count := state;
       increment := Update (fun c => c + 1);
       decrement := Update (fun c => c - 1);
       reset := SetTo initialValue |}.

  (** The state of the first render: [useState(initialValue)]. *)
Definition initial (initialValue : option Z) : Z :=
    match initialValue with Some v => v | None => 0 end.

Inductive call := Increment | Decrement | Reset.

  (** The calls are made on the functions of the latest render; the state
      updates are applied in the order of the calls. *)
Definition press (initialValue : option Z) (state : Z) (c : call) : Z :=
    let hook := useCounter initialValue state in
    reduce state (match c with
                  | Increment => increment hook
                  | Decrement => decrement hook
                  | Reset => reset hook
                  end).

Definition presses (initialValue : option Z) (cs : list call) : Z :=
    List.fold_left (press initialValue) cs (initial initialValue).

  (** Increments minus decrements. *)
Definition net (cs : list call) : Z :=
    List.fold_left (fun n c => match c with
                               | Increment => n + 1
                               | Decrement => n - 1
                               | Reset => n
                               end) cs 0.

End UseCounter.

(** README.md, [usePrevious]. *)
Module UsePrevious.

Record hook := {
    (** [ref.current]; [None] is [undefined] *)
    current : option Z;
    (** the dependency [[value]] of the last effect that ran *)
    dependency : option Z
  }.

  (** [useRef()] before the first render. *)
Definition fresh : hook := {| current := None; dependency := None |}.

  (** One render of [usePrevious(value)]: the value returned, and the hook
      after the effect [ref.current = value] (run when [value] changed). *)
Definition render (value : Z) (h : hook) : option Z * hook :=
    (current h,
     match dependency h with
     | Some d => if Z.eqb d value then h
                 else {| current := Some value; dependency := Some value |}
     | None => {| current := Some value; dependency := Some value |}
     end).

  (** The values returned by successive renders. *)
Fixpoint renders (values : list Z) (h : hook) : list (option Z) :=
    match values with
    | [] => []
    | v :: rest => let (out, h') := render v h in out :: renders rest h'
    end.

End UsePrevious.

(** README.md, "Todo App with DOM". *)
Module TodoDom.

Record todo := { id : Z; text : string; completed : bool }.

Record page := {
    (** [let todos = []] *)
    todos : list todo;
    (** the value of the [#todoInput] element *)
    input : string;
    (** the [innerHTML] of each child of [#todoList], in order *)
    container : list string
  }.

Definition quote : string := String "034"%char EmptyString.
Definition newline : string := String "010"%char EmptyString.

  (** A number in a template literal. *)
Definition show (n : Z) : string := NilZero.string_of_int (Z.to_int n).

  (** The template literal assigned to [div.innerHTML]. *)
Definition template (t : todo) : string :=
    (newline ++ "            <span>" ++ text t ++ "</span>" ++ newline
     ++ "            <button onclick=" ++ quote ++ "deleteTodo(" ++ show (id t)
     ++ ")" ++ quote ++ ">Delete</button>" ++ newline ++ "        ")%string.

  (** [render()] *)
Definition render (p : page) : page :=
    {| todos := todos p; input := input p;
       container := List.map template (todos p) |}.

  (** [addTodo()] when [Date.now()] returns [now]. *)
Definition addTodo (now : Z) (p : page) : page :=
    render {| todos := (todos p ++ [{| id := now; text := input p;
                                       completed := false |}])%list;
              input := ""; container := container p |}.

  (** [deleteTodo(id)] *)
Definition deleteTodo (i : Z) (p : page) : page :=
    render {| todos := List.filter (fun t => negb (Z.eqb (id t) i)) (todos p);
              input := input p; container := container p |}.

  (** The user types into the input. *)
Definition fill (value : string) (p : page) : page :=
    {| todos := todos p; input := value; container := container p |}.

Definition start : page := {| todos := []; input := ""; container := [] |}.

Inductive action :=
  | Fill (value : string)
  | Add (now : Z)
  | Delete (i : Z).

Definition step (p : page) (a : action) : page :=
    match a with
    | Fill value => fill value p
    | Add now => addTodo now p
    | Delete i => deleteTodo i p
    end.

Definition run (p : page) (acts : list action) : page :=
    List.fold_left step acts p.

End TodoDom.

(** README.md, "Problem 2: Build Todo App with React".  The [addTodo]
    handler is asynchronous: what it does after [await] uses the [todos]
    of the render in which the button was clicked. *)
Module TodoApp.

  (** A todo as the server returns it. *)
Record todo := { id : Z; text : string; completed : bool }.

  (** A POST /todos that has been sent and not yet answered: the [todos]
      and [input] its handler closed over. *)
Record post := { number : nat; closed_todos : list todo; sent_text : string }.

Record component := {
    (** [useState([])] *)
    todos : list todo;
    (** [useState('')] *)
    input : string;
    (** the GET /todos of the mount effect has not been answered yet *)
    loading_list : bool;
    posts : list post;
    next_post : nat
  }.

  (** First render; the effect sends GET /todos. *)
Definition mount : component :=
    {| todos := []; input := ""; loading_list := true; posts := [];
       next_post := 0 |}.

Inductive event :=
  (** [onChange]: [setInput(e.target.value)] *)
  | Typing (value : string)
  (** a click on "Add": [addTodo] runs up to its first [await] *)
  | ClickAdd
  (** the GET /todos answers: [setTodos(data)] *)
  | ListArrives (data : list todo)
  (** the POST with this number answers: the rest of [addTodo] runs *)
  | TodoArrives (number : nat) (newTodo : todo).

Definition step (c : component) (e : event) : component :=
    match e with
    | Typing value =>
        {| todos := todos c; input := value; loading_list := loading_list c;
           posts := posts c; next_post := next_post c |}
    | ClickAdd =>
        {| todos := todos c; input := input c; loading_list := loading_list c;
           posts := (posts c ++ [{| number := next_post c;
                                    closed_todos := todos c;
                                    sent_text := input c |}])%list;
           next_post := S (next_post c) |}
    | ListArrives data =>
        if loading_list c
        then {| todos := data; input := input c; loading_list := false;
                posts := posts c; next_post := next_post c |}
        else c
    | TodoArrives n newTodo =>
        match List.find (fun p => Nat.eqb (number p) n) (posts c) with
        | Some p =>
            {| todos := (closed_todos p ++ [newTodo])%list; input := "";
               loading_list := loading_list c;
               posts := List.filter (fun q => negb (Nat.eqb (number q) n)) (posts c);
               next_post := next_post c |}
        | None => c
        end
    end.

Definition run (c : component) (es : list event) : component :=
    List.fold_left step es c.

  (** The user adds one todo and waits for the answer before going on. *)
Definition add_and_wait (c : component) (answer : todo) : component :=
    run c [Typing (text answer); ClickAdd; TodoArrives (next_post c) answer].

  (** The numbers of the posts in flight have all been handed out. *)
Definition numbered (c : component) : Prop :=
    Forall (fun p => (number p < next_post c)%nat) (posts c).

  (** The [<li>] texts on screen. *)
Definition shown (c : component) : list string := List.map text (todos c).

End TodoApp.

(* ===================================================================== *)
(** * Statements and proofs                                               *)
(* ===================================================================== *)

(** Token generation and number rounding are unfolded by hand only. *)
#[local] Arguments Token.generateToken : simpl never.
#[local] Arguments Token.random_index : simpl never.
#[local] Arguments Double.mul_int : simpl never.
#[local] Arguments Double.round_even : simpl never.
#[local] Arguments Double.floor : simpl never.

(** ** Rounding of the product [Math.random() * 62] *)

Section DoubleFacts.
Import Double.

Lemma round_even_small n : Z.log2 n < prec -> round_even n = n.
Proof.
    intros H. unfold round_even.
    destruct (Z.ltb_spec (Z.log2 n) prec); [reflexivity | lia].
Qed.

  (** Rounding moves a numerator up by at most half a unit in the last
      place, and a unit in the last place is at most [n / 2^52]. *)
Lemma round_even_upper n :
    0 < n -> 2 ^ prec * round_even n <= (2 ^ prec + 1) * n.
Proof.
    intros Hn. unfold round_even.
    destruct (Z.ltb_spec (Z.log2 n) prec) as [Hb | Hb]; [nia |].
    set (s := Z.log2 n - (prec - 1)).
    assert (Hs : 1 <= s) by (unfold s, prec in *; lia).
    rewrite !Z.shiftl_mul_pow2, Z.shiftr_div_pow2, Z.land_ones by lia.
    assert (Hlog := Z.log2_spec n Hn). destruct Hlog as [Hlo _].
    assert (Hpow : 2 ^ Z.log2 n = 2 ^ prec * 2 ^ (s - 1)).
    { rewrite <- Z.pow_add_r by (unfold prec; lia). f_equal. unfold s, prec. lia. }
    assert (Hs2 : 2 ^ s = 2 * 2 ^ (s - 1)).
    { replace s with (1 + (s - 1)) at 1 by lia.
      rewrite Z.pow_add_r by lia. reflexivity. }
    assert (Hh : 0 < 2 ^ (s - 1)) by (apply Z.pow_pos_nonneg; lia).
    assert (Hdm := Z.div_mod n (2 ^ s) ltac:(lia)).
    assert (Hm := Z.mod_pos_bound n (2 ^ s) ltac:(lia)).
    set (q := n / 2 ^ s) in *. set (r := n mod 2 ^ s) in *.
    set (h := 2 ^ (s - 1)) in *.
    rewrite Z.mul_1_l.
    destruct ((h <? r) || ((r =? h) && Z.odd q)) eqn:E.
    - assert (h <= r).
      { apply orb_true_iff in E. destruct E as [E | E].
        - apply Z.ltb_lt in E. lia.
        - apply andb_true_iff in E. destruct E as [E _].
          apply Z.eqb_eq in E. lia. }
      nia.
    - nia.
Qed.

Lemma round_even_nonneg n : 0 <= n -> 0 <= round_even n.
Proof.
    intros Hn. unfold round_even.
    destruct (_ <? prec); [assumption |].
    assert (0 <= Z.shiftr n (Z.log2 n - (prec - 1))) by (apply Z.shiftr_nonneg; lia).
    destruct (_ || _); apply Z.shiftl_nonneg; lia.
Qed.

Lemma numerator_bounds r :
    in_unit_interval r ->
    0 <= numerator r <= (2 ^ prec - 1) * 2 ^ (scale - prec).
Proof.
    intros [[Hm0 Hm1] [He0 He1]]. unfold numerator.
    assert (0 < 2 ^ expo r) by (apply Z.pow_pos_nonneg; lia).
    assert (2 ^ expo r <= 2 ^ (scale - prec)) by (apply Z.pow_le_mono_r; lia).
    split; [nia |].
    apply Z.mul_le_mono_nonneg; lia.
Qed.

  (** The rounded product of a value below one with a positive integer [k]
      stays below [k]. *)
Lemma mul_int_below r k :
    in_unit_interval r -> 0 < k ->
    0 <= mul_int r k < k * 2 ^ scale.
Proof.
    intros Hr Hk. unfold mul_int.
    destruct (numerator_bounds r Hr) as [Hn0 Hn1].
    split; [apply round_even_nonneg; nia |].
    destruct (Z.eq_dec (numerator r) 0) as [E | E].
    { rewrite E, Z.mul_0_l. rewrite round_even_small by (cbn; unfold prec; lia).
      assert (0 < 2 ^ scale) by (apply Z.pow_pos_nonneg; unfold scale; lia). nia. }
    assert (Hup := round_even_upper (numerator r * k) ltac:(nia)).
    assert (Hsplit : 2 ^ scale = 2 ^ prec * 2 ^ (scale - prec)).
    { rewrite <- Z.pow_add_r by (unfold scale, prec; lia). reflexivity. }
    rewrite Hsplit.
    set (P := 2 ^ (scale - prec)) in *.
    assert (HP : 0 < P) by (apply Z.pow_pos_nonneg; unfold scale, prec; lia).
    set (B := 2 ^ prec) in *.
    assert (HB : 1 < B) by (unfold B, prec; lia).
    set (R := round_even (numerator r * k)) in *.
    set (N := numerator r) in *.
    assert (H1 : B * R <= (B + 1) * ((B - 1) * P * k)).
    { etransitivity; [exact Hup |]. apply Z.mul_le_mono_nonneg_l; [lia |].
      apply Z.mul_le_mono_nonneg_r; lia. }
    assert (H2 : (B + 1) * ((B - 1) * P * k) < B * (k * (B * P))) by nia.
    nia.
Qed.

Lemma floor_mul_int_range r k :
    in_unit_interval r -> 0 < k ->
    0 <= floor (mul_int r k) < k.
Proof.
    intros Hr Hk. destruct (mul_int_below r k Hr Hk) as [H0 H1].
    unfold floor. rewrite Z.shiftr_div_pow2 by (unfold scale; lia).
    assert (0 < 2 ^ scale) by (apply Z.pow_pos_nonneg; unfold scale; lia).
    split; [apply Z.div_pos; lia | apply Z.div_lt_upper_bound; lia].
Qed.

End DoubleFacts.

(** ** generateToken *)

Section TokenFacts.
Import Token.

  (** The characters of a string, in order. *)
Lemma chars_append s t :
    list_ascii_of_string (s ++ t)%string
    = (list_ascii_of_string s ++ list_ascii_of_string t)%list.
Proof. induction s as [| c s IH]; simpl; [reflexivity | now rewrite IH]. Qed.

Lemma chars_length s :
    List.length (list_ascii_of_string s) = String.length s.
Proof. induction s as [| c s IH]; simpl; [reflexivity | now rewrite IH]. Qed.

Lemma get_in_range s n :
    (n < String.length s)%nat ->
    exists c, String.get n s = Some c /\ In c (list_ascii_of_string s).
Proof.
    revert n. induction s as [| c s IH]; simpl; intros n Hn; [lia |].
    destruct n as [| n].
    - exists c. split; [reflexivity | now left].
    - destruct (IH n ltac:(lia)) as (d & Hd & Hin).
      exists d. split; [exact Hd | now right].
Qed.

Lemma options_alphanumeric :
    Forall (fun c => alphanumeric c = true) (list_ascii_of_string options).
Proof. repeat constructor. Qed.

  (** Indexing [options] inside its bounds yields one of its characters. *)
Lemma js_index_options i :
    0 <= i < options_length ->
    exists c, js_index options i = Some c
              /\ In c (list_ascii_of_string options).
Proof.
    intros [H0 H1]. unfold js_index.
    destruct (Z.ltb_spec i 0); [lia |].
    apply get_in_range. unfold options_length in H1. lia.
Qed.

Lemma random_index_range (rand : random_source) k :
    Double.in_unit_interval (rand k) ->
    0 <= random_index rand k < options_length.
Proof.
    intros H. apply floor_mul_int_range; [exact H | reflexivity].
Qed.

  (** One loop iteration appends exactly one character of [options]. *)
Lemma append_draw (rand : random_source) k token :
    Double.in_unit_interval (rand k) ->
    exists c, js_append token (js_index options (random_index rand k))
              = (token ++ String c EmptyString)%string
              /\ In c (list_ascii_of_string options).
Proof.
    intros H.
    destruct (js_index_options _ (random_index_range rand k H)) as (c & Hc & Hin).
    exists c. rewrite Hc. split; [reflexivity | exact Hin].
Qed.

Lemma generateToken_loop_spec (rand : random_source) left :
    (forall j, Double.in_unit_interval (rand j)) ->
    forall k token,
      let out := generateToken_loop rand left k token in
      snd out = (k + left)%nat
      /\ exists suffix,
           fst out = (token ++ suffix)%string
           /\ String.length suffix = left
           /\ Forall (fun c => In c (list_ascii_of_string options))
                (list_ascii_of_string suffix).
Proof.
    intros Hrand. induction left as [| left IH]; intros k token;
      cbn [generateToken_loop fst snd].
    - split; [lia |]. exists EmptyString. split.
      + clear. induction token; simpl; congruence.
      + split; [reflexivity | constructor].
    - destruct (append_draw rand k token (Hrand k)) as (c & Hc & Hin).
      rewrite Hc.
      destruct (IH (S k) (token ++ String c EmptyString)%string)
        as (Hk & suffix & Hs & Hlen & Hall).
      split; [lia |].
      exists (String c suffix). split.
      + rewrite Hs. clear. induction token; simpl; congruence.
      + split; [simpl; congruence | constructor; assumption].
Qed.

  (** The loop run from the empty token. *)
Lemma generateToken_spec (rand : random_source) k :
    (forall j, Double.in_unit_interval (rand j)) ->
    snd (generateToken rand k) = (k + 32)%nat
    /\ String.length (fst (generateToken rand k)) = 32%nat
    /\ Forall (fun c => In c (list_ascii_of_string options))
         (list_ascii_of_string (fst (generateToken rand k))).
Proof.
    intros Hrand.
    destruct (generateToken_loop_spec rand 32 Hrand k EmptyString)
      as (Hk & suffix & Hs & Hlen & Hall).
    change (generateToken_loop rand 32 k EmptyString)
      with (generateToken rand k) in Hk, Hs.
    change (EmptyString ++ suffix)%string with suffix in Hs.
    rewrite Hs. auto.
Qed.

End TokenFacts.

(** [options] holds exactly the 62 characters a-z, A-Z, 0-9. *)
Lemma options_is_alphabet :
  String.length Token.options = 62%nat
  /\ List.NoDup (list_ascii_of_string Token.options)
  /\ forall c, In c (list_ascii_of_string Token.options)
               <-> Token.alphanumeric c = true.
Proof.
  split; [reflexivity |]. split.
  - apply (NoDup_count_occ' ascii_dec). intros c Hc.
    repeat (destruct Hc as [<- | Hc]; [reflexivity |]). destruct Hc.
  - intros c.
    assert (E : existsb (Ascii.eqb c) (list_ascii_of_string Token.options)
                = Token.alphanumeric c).
    { destruct c as [[] [] [] [] [] [] [] []]; reflexivity. }
    rewrite <- E, existsb_exists. split.
    + intros H. exists c. split; [exact H | apply Ascii.eqb_refl].
    + intros (d & Hd & Heq). apply Ascii.eqb_eq in Heq. now subst.
Qed.

Example generateToken_half :
  Token.generateToken Token.half_source 0 = ("FFFFFFFFFFFFFFFFFFFFFFFFFFFFFFFF", 32%nat).
Proof. vm_compute. reflexivity. Qed.

Example generateToken_top :
  Token.generateToken Token.top_source 7 = ("99999999999999999999999999999999", 39%nat).
Proof. vm_compute. reflexivity. Qed.

(** C9. For every call, [generateToken()] returns a string of exactly 32
    characters, each drawn from the 62-character alphabet a-z, A-Z, 0-9, and
    every index [Math.floor(Math.random() * options.length)] it uses is
    within the bounds of [options] (the lookup never yields [undefined]),
    provided every [Math.random()] value lies in [0, 1). *)
Theorem generateToken_length_alphabet_bounds
    (rand : Token.random_source) (k : nat) :
  (forall j, Double.in_unit_interval (rand j)) ->
  let token := fst (Token.generateToken rand k) in
  String.length token = 32%nat
  /\ Forall (fun c => In c (list_ascii_of_string Token.options)
                      /\ Token.alphanumeric c = true)
       (list_ascii_of_string token)
  /\ String.length Token.options = 62%nat
  /\ (forall i, (i < 32)%nat ->
        0 <= Token.random_index rand (k + i) < 62
        /\ exists c, Token.js_index Token.options
                       (Token.random_index rand (k + i)) = Some c)
  /\ snd (Token.generateToken rand k) = (k + 32)%nat.
Proof.
  intros Hrand token.
  destruct (generateToken_spec rand k Hrand) as (Hk & Hlen & Hall).
  repeat split.
  - exact Hlen.
  - eapply List.Forall_impl; [| exact Hall]. intros c Hc. split; [exact Hc |].
    apply options_is_alphabet, Hc.
  - apply (random_index_range rand (k + i) (Hrand _)).
  - apply (random_index_range rand (k + i) (Hrand _)).
  - destruct (js_index_options _ (random_index_range rand (k + i) (Hrand _)))
      as (c & Hc & _).
    exists c. exact Hc.
  - exact Hk.
Qed.

Lemma generateToken_length_alphabet_bounds_witness :
  (forall j, Double.in_unit_interval (Token.top_source j))
  /\ String.length (fst (Token.generateToken Token.top_source 0)) = 32%nat.
Proof.
  assert (H : forall j, Double.in_unit_interval (Token.top_source j)).
  { intros j. unfold Double.in_unit_interval, Token.top_source. simpl.
    unfold Double.prec, Double.scale. lia. }
  split; [exact H |].
  exact (proj1 (generateToken_length_alphabet_bounds Token.top_source 0 H)).
Defined.

(** ** Sign-in handlers: when they answer 403 *)

Section SigninFacts.
Import Express Signin.

Lemma strict_eq_spec (a b : Users.field) :
    Users.strict_eq a b = true <-> a = b.
Proof.
    destruct a as [x |], b as [y |]; simpl; try (split; congruence).
    rewrite String.eqb_eq. split; congruence.
Qed.

Lemma credentials_spec name pass u :
    Users.credentials name pass u = true <-> memory_match name pass u.
Proof.
    unfold Users.credentials, memory_match.
    rewrite andb_true_iff, !strict_eq_spec. reflexivity.
Qed.






End SigninFacts.

Example two_johns_value :
  Samples.two_johns
  = [ {| Mongoose.username := "john"; Mongoose.password := "0$first" |};
      {| Mongoose.username := "john"; Mongoose.password := "1$second" |} ].
Proof. reflexivity. Qed.

Example demo_compare_accepts :
  Lib.bcrypt_compare Lib.demo "second" "1$second" = true
  /\ Lib.bcrypt_compare Lib.demo "second" "0$first" = false.
Proof. split; reflexivity. Qed.




(** ** The two token-based servers side by side *)

Section TokenServers.
Import Users Express Session Compare.




End TokenServers.




Example me_after_signin :
  let reqs := [Users.PostSignup (Some "john") (Some "pw");
               Users.PostSignin (Some "john") (Some "pw");
               Users.GetMe (Some "99999999999999999999999999999999")] in
  fst (Session.run (NodeToken.handle Token.top_source) reqs Users.boot)
  = [ {| Express.statusCode := 200;
         Express.body := [("message", "User created")] |};
      {| Express.statusCode := 200;
         Express.body := [("token", "99999999999999999999999999999999")] |};
      {| Express.statusCode := 200;
         Express.body := [("username", "john")] |} ].
Proof. vm_compute. reflexivity. Qed.

(** ** Behaviour that belongs to the repository *)

Section OwnedBehaviour.
Import Users Express.

Lemma strict_eq_refl a : strict_eq a a = true.
Proof. now apply strict_eq_spec. Qed.

Lemma find_app_new {A} (p : A -> bool) l x :
    p x = true -> exists y, List.find p (l ++ [x])%list = Some y.
Proof.
    intros Hx. induction l as [| a l IH]; simpl.
    - rewrite Hx. eauto.
    - destruct (p a); [eauto | exact IH].
Qed.

  (** After [foundUser.token = token], a stored user holds the token. *)
Lemma assign_token_held (p : User -> bool) tok l u :
    List.find p l = Some u ->
    existsb (holds (Some tok)) (assign_token p tok l) = true.
Proof.
    revert u. induction l as [| a l IH]; simpl; intros u Hf; [discriminate |].
    destruct (p a) eqn:E; simpl.
    - unfold holds at 1. simpl. now rewrite String.eqb_refl.
    - rewrite (IH u Hf). apply orb_true_r.
Qed.

Lemma generateToken_length rand k :
    (forall j, Double.in_unit_interval (rand j)) ->
    String.length (fst (Token.generateToken rand k)) = 32%nat.
Proof. intros Hrand. apply (generateToken_spec rand k Hrand). Qed.

End OwnedBehaviour.

(** ** The counter *)

Section CounterFacts.
Import Counter.

  (** In every style a click on "increment" stores [c + 1] and a click on
      "decrement" stores [c - 1]. *)
Lemma click_step st p c :
    click st p c = match p with Increment => c + 1 | Decrement => c - 1 end.
Proof. destruct st, p; reflexivity. Qed.

  (** In every style exactly one number is on screen: the state. *)
Lemma numbers_render st c : Dom.numbers (render st c) = [c].
Proof. destruct st; reflexivity. Qed.

Lemma clicks_net st ps c : clicks st ps c = c + net ps.
Proof.
    unfold clicks, net.
    assert (H : forall n,
      List.fold_left (fun c p => click st p c) ps (c + n)
      = c + List.fold_left (fun n p => match p with
                                       | Increment => n + 1
                                       | Decrement => n - 1
                                       end) ps n).
    { induction ps as [| p ps IH]; intros n; simpl; [reflexivity |].
      rewrite click_step. destruct p.
      - replace (c + n - 1) with (c + (n - 1)) by lia. apply IH.
      - replace (c + n + 1) with (c + (n + 1)) by lia. apply IH. }
    specialize (H 0). now rewrite Z.add_0_r in H.
Qed.

End CounterFacts.

(** C6. The counters in the three styles are behaviourally equivalent: with
    the Recoil atom defaulting to 0 like the two [useState(0)] variants, a
    click on the increment button replaces the count [c] by [c + 1], a click
    on the decrement button replaces it by [c - 1], the reader shows exactly
    the current count, and after every sequence of clicks all three styles
    show the same value. *)
Theorem counters_equivalent (countAtom_default : Z) (ps : list Counter.press) :
  countAtom_default = 0 ->
  (forall st c, Counter.click st Counter.Increment c = c + 1
                /\ Counter.click st Counter.Decrement c = c - 1
                /\ Dom.numbers (Counter.render st c) = [c])
  /\ (forall st, Counter.initial countAtom_default st = 0)
  /\ (forall st, Counter.display countAtom_default st ps = [Counter.net ps])
  /\ Counter.display countAtom_default Counter.Drilled ps
     = Counter.display countAtom_default Counter.Provided ps
  /\ Counter.display countAtom_default Counter.Provided ps
     = Counter.display countAtom_default Counter.Atom ps.
Proof.
  intros Hdefault.
  assert (Hinit : forall st, Counter.initial countAtom_default st = 0).
  { intros st. destruct st; [reflexivity | reflexivity | exact Hdefault]. }
  assert (Hdisplay : forall st,
    Counter.display countAtom_default st ps = [Counter.net ps]).
  { intros st. unfold Counter.display.
    now rewrite numbers_render, clicks_net, Hinit. }
  split.
  - intros st c. rewrite !click_step, numbers_render. auto.
  - split; [exact Hinit |]. split; [exact Hdisplay |].
    now rewrite !Hdisplay.
Qed.

Lemma counters_equivalent_witness :
  (0 = 0)
  /\ Counter.display 0 Counter.Drilled
       [Counter.Increment; Counter.Increment; Counter.Decrement]
     = Counter.display 0 Counter.Provided
         [Counter.Increment; Counter.Increment; Counter.Decrement].
Proof.
  split; [reflexivity |].
  exact (proj1 (proj2 (proj2 (proj2
    (counters_equivalent 0
       [Counter.Increment; Counter.Increment; Counter.Decrement]
       eq_refl))))).
Defined.

Example display_after_three_clicks :
  Counter.display 0 Counter.Atom
    [Counter.Increment; Counter.Increment; Counter.Decrement] = [1].
Proof. reflexivity. Qed.

(** ** The error boundary *)

Section ErrorBoundaryFacts.
Import ErrorBoundary.

Lemma step_keeps_error i e :
    hasError (this_state i) = true -> hasError (this_state (step i e)) = true.
Proof. intros H. destruct e; simpl; [reflexivity | exact H]. Qed.

Lemma run_keeps_error es : forall i,
    hasError (this_state i) = true -> hasError (this_state (run i es)) = true.
Proof.
    induction es as [| e es IH]; intros i H; simpl; [exact H |].
    apply IH, step_keeps_error, H.
Qed.

Lemma run_app i es1 es2 : run i (es1 ++ es2) = run (run i es1) es2.
Proof. unfold run. apply fold_left_app. Qed.

End ErrorBoundaryFacts.

(** C10. [render] returns the "Something went wrong." fallback when
    [state.hasError] is true and [props.children] otherwise;
    [getDerivedStateFromError] returns [{ hasError: true }] for every error;
    no operation on a mounted boundary sets [hasError] back to false, so
    once a child error has been caught every later render is the fallback. *)
Theorem error_boundary_monotone :
  (forall i, ErrorBoundary.render i
             = if ErrorBoundary.hasError (ErrorBoundary.this_state i)
               then Dom.Elem "div"
                      [Dom.Elem "h2" [Dom.Text "Something went wrong."]]
               else ErrorBoundary.children (ErrorBoundary.this_props i))
  /\ (forall error,
        ErrorBoundary.getDerivedStateFromError error
        = {| ErrorBoundary.hasError := true |})
  /\ (forall p, ErrorBoundary.hasError
                  (ErrorBoundary.this_state (ErrorBoundary.constructor p))
                = false)
  /\ (forall i e,
        ErrorBoundary.hasError (ErrorBoundary.this_state i) = true ->
        ErrorBoundary.hasError
          (ErrorBoundary.this_state (ErrorBoundary.step i e)) = true)
  /\ (forall i before error info after,
        let i' := ErrorBoundary.run i
                    (before ++ ErrorBoundary.ChildThrows error info :: after) in
        ErrorBoundary.hasError (ErrorBoundary.this_state i') = true
        /\ ErrorBoundary.render i' = ErrorBoundary.fallback).
Proof.
  split; [reflexivity |]. split; [reflexivity |]. split; [reflexivity |].
  split; [apply step_keeps_error |].
  intros i before error info after i'.
  assert (H : ErrorBoundary.hasError (ErrorBoundary.this_state i') = true).
  { unfold i'. rewrite run_app. simpl. apply run_keeps_error. reflexivity. }
  split; [exact H |]. unfold ErrorBoundary.render. now rewrite H.
Qed.

Lemma error_boundary_monotone_witness :
  let i := ErrorBoundary.step
             (ErrorBoundary.constructor
                {| ErrorBoundary.children := Dom.Text "Card 1" |})
             (ErrorBoundary.ChildThrows "Error While Rendering Card 1" "Card1") in
  ErrorBoundary.hasError (ErrorBoundary.this_state i) = true
  /\ ErrorBoundary.hasError
       (ErrorBoundary.this_state
          (ErrorBoundary.step i (ErrorBoundary.NewChildren (Dom.Text "Card 2"))))
     = true.
Proof.
  intros i. split; [reflexivity |].
  exact (proj1 (proj2 (proj2 (proj2 error_boundary_monotone))) i
           (ErrorBoundary.NewChildren (Dom.Text "Card 2")) eq_refl).
Defined.

(** ** useDebounce *)

Section DebounceFacts.
Import Debounce.

Lemma deps_changed_or_not value delay w :
    (String.eqb (fst (deps w)) value && Nat.eqb (snd (deps w)) delay = true
     /\ fst (deps w) = value /\ snd (deps w) = delay)
    \/ String.eqb (fst (deps w)) value && Nat.eqb (snd (deps w)) delay = false.
Proof.
    destruct (String.eqb_spec (fst (deps w)) value) as [E1 | E1];
      destruct (Nat.eqb_spec (snd (deps w)) delay) as [E2 | E2];
      simpl; auto.
Qed.

  (** After the cleanup of a settled hook no timeout is pending. *)
Lemma cleanup_pending w : settled w -> pending (cleanup w) = [].
Proof.
    unfold settled, cleanup, clearTimeout. simpl.
    destruct (pending w) as [| t [| u rest]]; simpl; intros H.
    - reflexivity.
    - destruct H as (Hid & _). rewrite Hid, Nat.eqb_refl. reflexivity.
    - contradiction.
Qed.

  (** After an effect that followed the cleanup exactly the new timeout is
      pending. *)
Lemma render_changed value delay w :
    settled w ->
    String.eqb (fst (deps w)) value && Nat.eqb (snd (deps w)) delay = false ->
    pending (render value delay w)
    = [{| id := next_id w; due := now w + delay; held := value |}]
    /\ deps (render value delay w) = (value, delay)
    /\ effect_timer (render value delay w) = next_id w
    /\ now (render value delay w) = now w
    /\ debouncedValue (render value delay w) = debouncedValue w.
Proof.
    intros Hs Hd. unfold render. rewrite Hd.
    unfold effect, setTimeout.
    cbn [pending deps effect_timer now debouncedValue next_id fst snd].
    rewrite (cleanup_pending w Hs). repeat split.
Qed.

Lemma mount_settled t0 value delay : settled (mount t0 value delay).
Proof. unfold settled. simpl. repeat split. lia. Qed.

Lemma render_settled value delay w : settled w -> settled (render value delay w).
Proof.
    intros Hs.
    destruct (deps_changed_or_not value delay w) as [(Hd & _) | Hd].
    - unfold render. rewrite Hd. exact Hs.
    - destruct (render_changed value delay w Hs Hd) as (Hp & Hdeps & Ht & Hn & _).
      unfold settled. rewrite Hp, Hdeps, Ht, Hn. simpl. repeat split. lia.
Qed.

Lemma elapse_settled ms w : settled w -> settled (elapse ms w).
Proof.
    unfold settled, elapse.
    destruct (pending w) as [| t [| u rest]]; intros Hs.
    - simpl. exact Hs.
    - simpl. destruct (Nat.leb_spec (due t) (now w + ms)) as [Hdue | Hdue]; simpl.
      + rewrite Nat.eqb_refl. simpl. apply Hs.
      + destruct Hs as (H1 & H2 & H3). repeat split; auto. lia.
    - contradiction.
Qed.

Lemma step_settled w e : settled w -> settled (step w e).
Proof. destruct e; [apply render_settled | apply elapse_settled]. Qed.

Lemma run_settled es : forall w, settled w -> settled (run w es).
Proof.
    induction es as [| e es IH]; intros w Hs; simpl; [exact Hs |].
    apply IH, step_settled, Hs.
Qed.


  (** A quiet period of at least [delay] publishes the current value. *)
Lemma elapse_publishes ms w :
    settled w -> (snd (deps w) <= ms)%nat ->
    debouncedValue (elapse ms w) = fst (deps w) /\ pending (elapse ms w) = [].
Proof.
    unfold settled, elapse.
    destruct (pending w) as [| t [| u rest]]; intros Hs Hms.
    - simpl. auto.
    - destruct Hs as (H1 & H2 & H3). simpl.
      destruct (Nat.leb_spec (due t) (now w + ms)) as [Hdue | Hdue]; [| lia].
      simpl. rewrite Nat.eqb_refl. simpl. auto.
    - contradiction.
Qed.

  (** A period shorter than what is left of the delay publishes nothing. *)
Lemma elapse_too_short ms w t :
    pending w = [t] -> (now w + ms < due t)%nat ->
    debouncedValue (elapse ms w) = debouncedValue w
    /\ pending (elapse ms w) = [t].
Proof.
    intros Ep Hlt. unfold elapse. rewrite Ep. simpl.
    destruct (Nat.leb_spec (due t) (now w + ms)); [lia |]. simpl. auto.
Qed.

End DebounceFacts.

(** ** useFetch *)

Section FetchFacts.
Import Fetch.



End FetchFacts.




(** ** Which examples see each other's state *)

Section WorldFacts.
Import World.
Variable rand : Token.random_source.
Variable lib : Lib.t.

Lemma signup_with_result message name pass k c :
    MongoAuth.signup_with message lib name pass k c
    = (Express.json [("message", Some message)] Express.res,
       (Mongoose.save {| Mongoose.username := name;
                         Mongoose.password := Lib.bcrypt_hash lib pass 10 k |} c,
        S k)).
Proof. reflexivity. Qed.

Lemma mongo_signup_result ex name pass k c :
    snd (mongo_signup ex lib name pass k c)
    = (Mongoose.save {| Mongoose.username := name;
                        Mongoose.password := Lib.bcrypt_hash lib pass 10 k |} c,
       S k).
Proof. destruct ex; reflexivity. Qed.

Lemma collection_insert url c w m s :
    collection url {| memory := m; salts := s;
                      databases := <[url := c]> (databases w) |} = c.
Proof. unfold collection. simpl. now rewrite lookup_insert_eq. Qed.







End WorldFacts.

Example separate_examples :
  World.separate (World.TokenEx World.ReadmeTokenEx) (World.TokenEx World.NodeTokenEx)
  /\ World.separate (World.MongoEx World.ReadmeProblem1Ex)
       (World.MongoEx World.MongodbAuthEx)
  /\ World.connection World.MongodbAuthEx = World.connection World.ReadmeCompleteEx.
Proof.
  unfold World.separate. simpl.
  split; [split; [discriminate | auto] |].
  split; [split; [discriminate | right; right; discriminate] | reflexivity].
Qed.




(** ** Import lists *)

Section ImportFacts.
Import Imports.

  (** Without ".." a walk only descends. *)
Lemma walk_descends segs : forall dir,
    Forall (fun s => s <> "..") segs ->
    exists rest, walk dir segs = Some (dir ++ rest)%list.
Proof.
    induction segs as [| seg segs IH]; intros dir Hall; simpl.
    - exists []. now rewrite app_nil_r.
    - inversion Hall as [| ? ? Hseg Hrest]; subst.
      destruct (String.eqb seg ".").
      + apply IH, Hrest.
      + apply String.eqb_neq in Hseg. rewrite Hseg.
        destruct (IH (dir ++ [seg])%list Hrest) as (rest & Hr).
        exists (seg :: rest). rewrite Hr. now rewrite <- app_assoc.
Qed.

  (** A specifier that names something below the directory ends strictly
      below it. *)
Lemma walk_descends_strictly segs : forall dir,
    Forall (fun s => s <> "..") segs ->
    Exists (fun s => s <> ".") segs ->
    exists rest, rest <> [] /\ walk dir segs = Some (dir ++ rest)%list.
Proof.
    induction segs as [| seg segs IH]; intros dir Hall Hex.
    - inversion Hex.
    - inversion Hall as [| ? ? Hseg Hrest]; subst. simpl.
      destruct (String.eqb_spec seg ".") as [-> | Hdot].
      + inversion Hex as [? ? H | ? ? H]; subst; [congruence |].
        now apply IH.
      + apply String.eqb_neq in Hseg. rewrite Hseg.
        destruct (walk_descends segs (dir ++ [seg])%list Hrest) as (rest & Hr).
        exists (seg :: rest). split; [discriminate |].
        rewrite Hr. now rewrite <- app_assoc.
Qed.

Lemma with_suffix_inside (dir rest : path) suffix :
    rest <> [] ->
    with_suffix (dir ++ rest)%list suffix = (dir ++ with_suffix rest suffix)%list.
Proof.
    intros Hne. induction dir as [| seg dir IH]; [reflexivity |].
    change (with_suffix (seg :: (dir ++ rest)%list) suffix
            = seg :: (dir ++ with_suffix rest suffix)%list).
    rewrite <- IH. destruct (dir ++ rest)%list as [| x l] eqn:E; [| reflexivity].
    apply app_eq_nil in E. destruct E. contradiction.
Qed.

  (** Every candidate of a specifier without ".." lies in the importing
      directory. *)
Lemma candidates_inside dir spec p :
    Forall (fun s => s <> "..") (segments spec) ->
    Exists (fun s => s <> ".") (segments spec) ->
    In p (candidates dir spec) -> inside dir p.
Proof.
    intros Hall Hex Hin. unfold candidates in Hin.
    destruct (relative spec); [| destruct Hin].
    destruct (walk_descends_strictly (segments spec) dir Hall Hex)
      as (rest & Hne & Hw).
    rewrite Hw in Hin. destruct Hin as [<- | Hin]; [now exists rest |].
    apply in_app_or in Hin. destruct Hin as [Hin | Hin];
      apply in_map_iff in Hin; destruct Hin as (e & <- & _).
    - rewrite with_suffix_inside by exact Hne. eexists. reflexivity.
    - exists (rest ++ [("index" ++ e)%string])%list. now rewrite app_assoc.
Qed.

Lemma candidates_nonempty dir spec :
    relative spec = true ->
    Forall (fun s => s <> "..") (segments spec) ->
    candidates dir spec <> [].
Proof.
    intros Hrel Hall. unfold candidates. rewrite Hrel.
    destruct (walk_descends (segments spec) dir Hall) as (rest & ->).
    discriminate.
Qed.

Lemma no_parent_segment l :
    forallb (fun s => negb (String.eqb s "..")) l = true ->
    Forall (fun s => s <> "..") l.
Proof.
    intros H. apply List.Forall_forall. intros s Hs.
    apply (proj1 (forallb_forall _ _) H) in Hs.
    apply negb_true_iff, String.eqb_neq in Hs. exact Hs.
Qed.

Lemma names_a_segment l :
    existsb (fun s => negb (String.eqb s ".")) l = true ->
    Exists (fun s => s <> ".") l.
Proof.
    intros H. apply existsb_exists in H. destruct H as (s & Hs & Hne).
    apply List.Exists_exists. exists s. split; [exact Hs |].
    apply negb_true_iff, String.eqb_neq in Hne. exact Hne.
Qed.

End ImportFacts.

Example candidates_of_a_hook :
  Imports.candidates ["some"; "directory"] "./hooks/useDebounce"
  = [ ["some"; "directory"; "hooks"; "useDebounce"];
      ["some"; "directory"; "hooks"; "useDebounce.mjs"];
      ["some"; "directory"; "hooks"; "useDebounce.js"];
      ["some"; "directory"; "hooks"; "useDebounce.mts"];
      ["some"; "directory"; "hooks"; "useDebounce.ts"];
      ["some"; "directory"; "hooks"; "useDebounce.jsx"];
      ["some"; "directory"; "hooks"; "useDebounce.tsx"];
      ["some"; "directory"; "hooks"; "useDebounce.json"];
      ["some"; "directory"; "hooks"; "useDebounce"; "index.mjs"];
      ["some"; "directory"; "hooks"; "useDebounce"; "index.js"];
      ["some"; "directory"; "hooks"; "useDebounce"; "index.mts"];
      ["some"; "directory"; "hooks"; "useDebounce"; "index.ts"];
      ["some"; "directory"; "hooks"; "useDebounce"; "index.jsx"];
      ["some"; "directory"; "hooks"; "useDebounce"; "index.tsx"];
      ["some"; "directory"; "hooks"; "useDebounce"; "index.json"] ].
Proof. reflexivity. Qed.

Example candidates_of_a_package :
  Imports.candidates ["25_Recoil"; "vite-project"; "src"] "recoil" = []
  /\ Imports.candidates ["28_ReactAdvancedPatterns"] "react-dom/client" = []
  /\ Imports.candidates ["a"] "../../above" = [].
Proof. repeat split. Qed.

(** C1, as stated, fails: the Recoil counter imports ./store/atom/count.jsx
    and the Context counter imports ./Context.jsx; neither is a package,
    and each names a file of the repository next to the importing file. *)
Lemma jsx_files_import_repository_files :
  In Imports.recoil_app Imports.jsx_files
  /\ In "./store/atom/count.jsx" (Imports.imports Imports.recoil_app)
  /\ Imports.directory Imports.recoil_app = ["25_Recoil"; "vite-project"; "src"]
  /\ In ["25_Recoil"; "vite-project"; "src"; "store"; "atom"; "count.jsx"]
       (Imports.candidates (Imports.directory Imports.recoil_app)
          "./store/atom/count.jsx")
  /\ In Imports.context_app Imports.jsx_files
  /\ In "./Context.jsx" (Imports.imports Imports.context_app)
  /\ In ["24_Context"; "vite-project"; "src"; "Context.jsx"]
       (Imports.candidates (Imports.directory Imports.context_app)
          "./Context.jsx").
Proof.
  split; [left; reflexivity |]. split; [left; reflexivity |].
  split; [reflexivity |]. split; [left; reflexivity |].
  split; [right; left; reflexivity |].
  split; [right; left; reflexivity | left; reflexivity].
Qed.

(** C1 (amended). Every import of a JSX file is either a package, which
    resolves to no file of the repository, or a relative path without
    "..", which resolves, wherever the importing file lies, only to files
    in the importing file's own directory or below it: a JSX file depends
    on modules of its own example (./store/atom/count.jsx, ./Context.jsx,
    ./hooks/useFetch, ./hooks/useDebounce) and on nothing outside its
    directory. *)
Theorem imports_stay_in_own_directory :
  (forall dir spec p,
      Forall (fun s => s <> "..") (Imports.segments spec) ->
      Exists (fun s => s <> ".") (Imports.segments spec) ->
      In p (Imports.candidates dir spec) -> Imports.inside dir p)
  /\ (forall f spec,
        In f Imports.jsx_files -> In spec (Imports.imports f) ->
        forall dir,
          (Imports.relative spec = false /\ Imports.candidates dir spec = [])
          \/ (Imports.relative spec = true
              /\ Imports.candidates dir spec <> []
              /\ forall p, In p (Imports.candidates dir spec) ->
                           Imports.inside dir p)).
Proof.
  split; [intros dir spec p; apply candidates_inside |].
  intros f spec Hf Hspec dir.
  assert (Hcase : (Imports.relative spec = false)
                  \/ (Imports.relative spec = true
                      /\ Forall (fun s => s <> "..") (Imports.segments spec)
                      /\ Exists (fun s => s <> ".") (Imports.segments spec))).
  { unfold Imports.jsx_files in Hf.
    repeat (destruct Hf as [<- | Hf];
            [ simpl in Hspec;
              repeat (destruct Hspec as [<- | Hspec];
                      [ first [ left; reflexivity
                              | right; split; [reflexivity |]; split;
                                [ apply no_parent_segment; reflexivity
                                | apply names_a_segment; reflexivity ] ]
                      | ]);
              destruct Hspec
            | ]).
    destruct Hf. }
  destruct Hcase as [Hpkg | (Hrel & Hall & Hex)].
  - left. split; [exact Hpkg |]. unfold Imports.candidates. now rewrite Hpkg.
  - right. split; [exact Hrel |].
    split; [now apply candidates_nonempty |].
    intros p. now apply candidates_inside.
Qed.

Lemma imports_stay_in_own_directory_witness :
  In Imports.use_debounce_app Imports.jsx_files
  /\ In "./hooks/useDebounce" (Imports.imports Imports.use_debounce_app)
  /\ Forall (fun s => s <> "..") (Imports.segments "./hooks/useDebounce")
  /\ Exists (fun s => s <> ".") (Imports.segments "./hooks/useDebounce")
  /\ Imports.inside ["some"; "directory"]
       ["some"; "directory"; "hooks"; "useDebounce.jsx"].
Proof.
  assert (H1 : In Imports.use_debounce_app Imports.jsx_files)
    by (do 6 right; left; reflexivity).
  assert (H2 : In "./hooks/useDebounce" (Imports.imports Imports.use_debounce_app))
    by (right; left; reflexivity).
  assert (H3 : Forall (fun s => s <> "..") (Imports.segments "./hooks/useDebounce"))
    by (apply no_parent_segment; reflexivity).
  assert (H4 : Exists (fun s => s <> ".") (Imports.segments "./hooks/useDebounce"))
    by (apply names_a_segment; reflexivity).
  split; [exact H1 |]. split; [exact H2 |]. split; [exact H3 |].
  split; [exact H4 |].
  apply (proj1 imports_stay_in_own_directory ["some"; "directory"]
           "./hooks/useDebounce" _ H3 H4).
  do 5 right. left. reflexivity.
Defined.

(** ** More about the authentication snippets *)

Section MoreAuthFacts.
Import Users Express.

Lemma find_split {A} (p : A -> bool) (l : list A) u :
    List.find p l = Some u ->
    exists l1 l2, l = (l1 ++ u :: l2)%list
                  /\ Forall (fun v => p v = false) l1 /\ p u = true.
Proof.
    induction l as [| a l IH]; simpl; [discriminate |].
    destruct (p a) eqn:E; intros H.
    - injection H as <-. exists [], l. auto.
    - destruct (IH H) as (l1 & l2 & -> & Hall & Hu).
      exists (a :: l1), l2. auto.
Qed.

Lemma assign_token_first (p : User -> bool) tok l1 u l2 :
    Forall (fun v => p v = false) l1 -> p u = true ->
    assign_token p tok (l1 ++ u :: l2)
    = (l1 ++ {| username := username u; password := password u;
                token := Some tok |} :: l2)%list.
Proof.
    intros Hall Hu. induction Hall as [| a l1 Ha Hall IH]; simpl.
    - now rewrite Hu.
    - now rewrite Ha, IH.
Qed.

Lemma findOne_app_some name (c : Mongoose.Collection) d e :
    Mongoose.findOne name c = Some d ->
    Mongoose.findOne name (Mongoose.save e c) = Some d.
Proof.
    unfold Mongoose.findOne, Mongoose.save.
    induction c as [| a c IH]; simpl; [discriminate |].
    destruct (String.eqb (Mongoose.username a) name); auto.
Qed.

Lemma findOne_app_other name (c : Mongoose.Collection) e :
    Mongoose.username e <> name ->
    Mongoose.findOne name (Mongoose.save e c) = Mongoose.findOne name c.
Proof.
    intros Hne. unfold Mongoose.findOne, Mongoose.save.
    induction c as [| a c IH]; simpl.
    - apply String.eqb_neq in Hne. now rewrite Hne.
    - destruct (String.eqb (Mongoose.username a) name); auto.
Qed.

Lemma findOne_app_new name (c : Mongoose.Collection) e :
    Mongoose.findOne name c = None -> Mongoose.username e = name ->
    Mongoose.findOne name (Mongoose.save e c) = Some e.
Proof.
    intros Hnone He. unfold Mongoose.findOne, Mongoose.save in *.
    induction c as [| a c IH]; simpl in *.
    - apply String.eqb_eq in He. now rewrite He.
    - destruct (String.eqb (Mongoose.username a) name); [discriminate | auto].
Qed.

  (** A sign-in handler of the MongoDB examples reads the collection only
      through [findOne] of the submitted username. *)
Lemma mongo_signin_findOne ex lib name pass c c' :
    Mongoose.findOne name c = Mongoose.findOne name c' ->
    World.mongo_signin ex lib name pass c = World.mongo_signin ex lib name pass c'.
Proof.
    intros H. destruct ex; cbn [World.mongo_signin];
      unfold MongoAuth.mongodb_auth_signin, MongoAuth.readme_complete_signin,
        MongoAuth.readme_problem1_signin; now rewrite H.
Qed.

End MoreAuthFacts.

(** X1. Right after any sign-up, GET /me sent without a token header is
    answered 200 with the username of a stored user who has never signed
    in: [u.token === token] holds between two [undefined]s. *)
Theorem me_without_token_names_a_user name pass (s : Users.Server) :
  let s1 := snd (ReadmeToken.signup name pass s) in
  snd (NodeToken.signup name pass s) = s1
  /\ exists u, In u (Users.users s1)
               /\ Users.token u = None
               /\ fst (ReadmeToken.me None s1)
                  = {| Express.statusCode := 200;
                       Express.body := Express.object
                                         [("username", Users.username u)] |}
               /\ fst (NodeToken.me None s1) = fst (ReadmeToken.me None s1).
Proof.
  intros s1. split; [reflexivity |].
  assert (Hnew : Users.holds None
            {| Users.username := name; Users.password := pass;
               Users.token := None |} = true) by reflexivity.
  destruct (find_app_new _ (Users.users s) _ Hnew) as (u & Hu).
  destruct (find_some _ _ Hu) as [Hin Hh].
  exists u. split; [exact Hin |]. split.
  - unfold Users.holds in Hh. now apply strict_eq_spec in Hh.
  - unfold ReadmeToken.me, NodeToken.me. subst s1.
    cbn [snd ReadmeToken.signup Users.users] in *. unfold Users.push.
    rewrite Hu. split; reflexivity.
Qed.

(** X2. A sign-in either changes nothing (403) or gives the token to the
    first stored user with the submitted credentials and to nobody else:
    every other user, and every username and password, stays as it was. *)
Theorem signin_updates_first_match_only rand name pass (s : Users.Server) :
  let r := fst (ReadmeToken.signin rand name pass s) in
  let s' := snd (ReadmeToken.signin rand name pass s) in
  snd (NodeToken.signin rand name pass s) = s'
  /\ ((Express.statusCode r = 403 /\ s' = s)
      \/ exists l1 u l2 tok,
           Users.users s = (l1 ++ u :: l2)%list
           /\ Forall (fun v => Users.credentials name pass v = false) l1
           /\ Users.credentials name pass u = true
           /\ r = {| Express.statusCode := 200;
                     Express.body := [("token", tok)] |}
           /\ Users.users s'
              = (l1 ++ {| Users.username := Users.username u;
                          Users.password := Users.password u;
                          Users.token := Some tok |} :: l2)%list).
Proof.
  intros r s'. subst r s'.
  unfold ReadmeToken.signin, NodeToken.signin.
  destruct (List.find _ _) as [u |] eqn:Ef.
  - destruct (Token.generateToken rand (Users.draws s)) as [tok k].
    split; [reflexivity |]. right.
    destruct (find_split _ _ _ Ef) as (l1 & l2 & Hl & Hall & Hu).
    exists l1, u, l2, tok. cbn [fst snd Users.users].
    rewrite Hl at 2. rewrite (assign_token_first _ tok l1 u l2 Hall Hu). auto.
  - split; [reflexivity |]. left. split; reflexivity.
Qed.

(** X3. In the three complete MongoDB examples a sign-in that follows the
    sign-up of a free username with the same password is answered 200,
    provided [bcrypt.compare] accepts the hashes [bcrypt.hash] makes. *)
Theorem mongo_signup_then_signin lib ex name pass k (c : Mongoose.Collection) :
  (forall p j, Lib.bcrypt_compare lib p (Lib.bcrypt_hash lib p 10 j) = true) ->
  Mongoose.findOne name c = None ->
  let c' := fst (snd (World.mongo_signup ex lib name pass k c)) in
  Express.statusCode (World.mongo_signin ex lib name pass c') = 200
  /\ Signin.success_body (Express.body (World.mongo_signin ex lib name pass c')).
Proof.
  intros Hcmp Hfree c'. subst c'. rewrite mongo_signup_result. cbn [fst].
  pose proof (findOne_app_new name c
                {| Mongoose.username := name;
                   Mongoose.password := Lib.bcrypt_hash lib pass 10 k |}
                Hfree eq_refl) as Hf.
  unfold Signin.success_body.
  destruct ex; cbn [World.mongo_signin];
    unfold MongoAuth.mongodb_auth_signin, MongoAuth.readme_complete_signin,
      MongoAuth.readme_problem1_signin;
    rewrite Hf; cbn [Mongoose.password]; rewrite Hcmp;
    cbn [negb Express.statusCode Express.body Express.json Express.res
         Express.object]; eauto.
Qed.

Lemma mongo_signup_then_signin_witness :
  (forall p j, Lib.bcrypt_compare Cleartext.lib p
                 (Lib.bcrypt_hash Cleartext.lib p 10 j) = true)
  /\ Mongoose.findOne "john" [] = None
  /\ Express.statusCode
       (World.mongo_signin World.MongodbAuthEx Cleartext.lib "john" "pw"
          (fst (snd (World.mongo_signup World.MongodbAuthEx Cleartext.lib
                       "john" "pw" 0%nat [])))) = 200.
Proof.
  assert (H : forall p j, Lib.bcrypt_compare Cleartext.lib p
                            (Lib.bcrypt_hash Cleartext.lib p 10 j) = true)
    by (intros p j; apply String.eqb_refl).
  split; [exact H |]. split; [reflexivity |].
  exact (proj1 (mongo_signup_then_signin Cleartext.lib World.MongodbAuthEx
                  "john" "pw" 0%nat [] H eq_refl)).
Defined.

(** X4. In the MongoDB examples a sign-up changes the answer of /signin only
    for its own username, and only when that username was free: signing up
    again with a taken username stores a document that no sign-in ever
    reaches. *)
Theorem mongo_signup_frame lib ex name pass k (c : Mongoose.Collection)
    name' pass' :
  name' <> name \/ Mongoose.findOne name c <> None ->
  let c' := fst (snd (World.mongo_signup ex lib name pass k c)) in
  List.length c' = S (List.length c)
  /\ World.mongo_signin ex lib name' pass' c'
     = World.mongo_signin ex lib name' pass' c.
Proof.
  intros H c'. subst c'. rewrite mongo_signup_result. cbn [fst].
  split.
  - unfold Mongoose.save. rewrite length_app. simpl. lia.
  - apply mongo_signin_findOne.
    destruct (String.eqb_spec name' name) as [-> | Hne].
    + destruct H as [H | H]; [contradiction |].
      destruct (Mongoose.findOne name c) as [d |] eqn:Ef; [| contradiction].
      now apply findOne_app_some.
    + apply findOne_app_other. simpl. congruence.
Qed.

Lemma mongo_signup_frame_witness :
  ("john" <> "john" \/ Mongoose.findOne "john" Samples.one_john <> None)
  /\ World.mongo_signin World.ReadmeCompleteEx Lib.demo "john" "second"
       (fst (snd (World.mongo_signup World.ReadmeCompleteEx Lib.demo
                    "john" "second" 1%nat Samples.one_john)))
     = World.mongo_signin World.ReadmeCompleteEx Lib.demo "john" "second"
         Samples.one_john.
Proof.
  assert (H : "john" <> "john" \/ Mongoose.findOne "john" Samples.one_john <> None)
    by (right; discriminate).
  split; [exact H |].
  exact (proj2 (mongo_signup_frame Lib.demo World.ReadmeCompleteEx
                  "john" "second" 1%nat Samples.one_john "john" "second" H)).
Defined.

(** X5. README.md and NODEJS-README.md, JWT routes: the token issued by
    /signin is accepted by GET /me, which answers with the username that
    signed in, provided [jwt.verify] decodes what [jwt.sign] made.  Without
    an Authorization header /me answers 401 "Invalid token"; the
    [authenticateJWT] middleware answers 401 "No token provided" for a
    missing or empty header and lets the issued token through. *)
Theorem jwt_signin_then_me lib (verify : JwtRoutes.verifier) name pass
    (users : list Users.User) tok :
  (forall n s, verify (Lib.jwt_sign lib n s) s = Some n) ->
  Express.body (JwtMemory.readme_signin lib name pass users) = [("token", tok)] ->
  JwtMemory.node_signin lib name pass users
  = JwtMemory.readme_signin lib name pass users
  /\ JwtRoutes.me verify (Some tok)
     = {| Express.statusCode := 200;
          Express.body := Express.object [("username", name)] |}
  /\ (tok <> "" -> JwtRoutes.authenticateJWT verify (Some tok) = JwtRoutes.Next name)
  /\ JwtRoutes.me verify None
     = {| Express.statusCode := 401;
          Express.body := [("message", "Invalid token")] |}
  /\ JwtRoutes.authenticateJWT verify None
     = JwtRoutes.Answered {| Express.statusCode := 401;
                             Express.body := [("message", "No token provided")] |}
  /\ JwtRoutes.authenticateJWT verify (Some "")
     = JwtRoutes.authenticateJWT verify None.
Proof.
  intros Hv Hbody.
  assert (Htok : tok = Lib.jwt_sign lib name JwtMemory.JWT_SECRET).
  { unfold JwtMemory.readme_signin in Hbody.
    destruct (List.find _ users); simpl in Hbody; congruence. }
  split; [reflexivity |]. split.
  - unfold JwtRoutes.me, JwtRoutes.verify_header. now rewrite Htok, Hv.
  - split; [| repeat split].
    intros Hne. unfold JwtRoutes.authenticateJWT, JwtRoutes.verify_header.
    cbn [JwtRoutes.falsy]. apply String.eqb_neq in Hne. rewrite Hne.
    now rewrite Htok, Hv.
Qed.

Lemma jwt_signin_then_me_witness :
  let users := [{| Users.username := Some "john"; Users.password := Some "pw";
                   Users.token := None |}] in
  (forall n s, Cleartext.jwt_verify (Lib.jwt_sign Cleartext.lib n s) s = Some n)
  /\ Express.body (JwtMemory.readme_signin Cleartext.lib (Some "john")
                     (Some "pw") users) = [("token", "ujohn")]
  /\ JwtRoutes.me Cleartext.jwt_verify (Some "ujohn")
     = {| Express.statusCode := 200;
          Express.body := Express.object [("username", Some "john")] |}.
Proof.
  intros users.
  assert (H : forall n s,
            Cleartext.jwt_verify (Lib.jwt_sign Cleartext.lib n s) s = Some n)
    by (intros [n |] s; reflexivity).
  split; [exact H |]. split; [reflexivity |].
  exact (proj1 (proj2 (jwt_signin_then_me Cleartext.lib Cleartext.jwt_verify
                         (Some "john") (Some "pw") users "ujohn" H eq_refl))).
Defined.

(** X6. MONGODB-README.md section 5: after the sign-up of a free username
    and a sign-in with the same password, GET /me with the issued token
    answers 200 with that username; the same token is answered 401 "Invalid
    token" once the user's document is gone, because reading
    [user.username] of the missing user throws inside the [try]. *)
Theorem mongo_jwt_round_trip lib (verify : MongoJwt.verifier) name pass k
    (c : Mongoose.Collection) :
  (forall n s, verify (Lib.jwt_sign lib (Some n) s) s = Some n) ->
  (forall p j, Lib.bcrypt_compare lib p (Lib.bcrypt_hash lib p 10 j) = true) ->
  Mongoose.findOne name c = None ->
  let c' := fst (snd (MongoAuth.mongodb_auth_signup lib name pass k c)) in
  let tok := Lib.jwt_sign lib (Some name) MongoAuth.JWT_SECRET in
  MongoAuth.mongodb_jwt_signin lib name pass c'
  = {| Express.statusCode := 200; Express.body := [("token", tok)] |}
  /\ MongoJwt.me verify (Some tok) c'
     = {| Express.statusCode := 200; Express.body := [("username", name)] |}
  /\ MongoJwt.me verify (Some tok) c
     = {| Express.statusCode := 401;
          Express.body := [("message", "Invalid token")] |}
  /\ MongoJwt.me verify None c'
     = {| Express.statusCode := 401;
          Express.body := [("message", "Invalid token")] |}.
Proof.
  intros Hv Hcmp Hfree c' tok. subst c' tok.
  unfold MongoAuth.mongodb_auth_signup. rewrite signup_with_result.
  cbn [fst snd].
  pose proof (findOne_app_new name c
                {| Mongoose.username := name;
                   Mongoose.password := Lib.bcrypt_hash lib pass 10 k |}
                Hfree eq_refl) as Hf.
  unfold MongoAuth.mongodb_jwt_signin, MongoJwt.me.
  rewrite Hv, Hf, Hfree. cbn [Mongoose.password Mongoose.username].
  rewrite Hcmp. repeat split.
Qed.

Lemma mongo_jwt_round_trip_witness :
  (forall n s, Cleartext.jwt_verify_username
                 (Lib.jwt_sign Cleartext.lib (Some n) s) s = Some n)
  /\ (forall p j, Lib.bcrypt_compare Cleartext.lib p
                    (Lib.bcrypt_hash Cleartext.lib p 10 j) = true)
  /\ Mongoose.findOne "john" [] = None
  /\ MongoJwt.me Cleartext.jwt_verify_username (Some "ujohn")
       (fst (snd (MongoAuth.mongodb_auth_signup Cleartext.lib "john" "pw" 0%nat [])))
     = {| Express.statusCode := 200; Express.body := [("username", "john")] |}.
Proof.
  assert (H1 : forall n s, Cleartext.jwt_verify_username
                 (Lib.jwt_sign Cleartext.lib (Some n) s) s = Some n)
    by (intros n s; reflexivity).
  assert (H2 : forall p j, Lib.bcrypt_compare Cleartext.lib p
                    (Lib.bcrypt_hash Cleartext.lib p 10 j) = true)
    by (intros p j; apply String.eqb_refl).
  split; [exact H1 |]. split; [exact H2 |]. split; [reflexivity |].
  exact (proj1 (proj2 (mongo_jwt_round_trip Cleartext.lib
                         Cleartext.jwt_verify_username "john" "pw" 0%nat []
                         H1 H2 eq_refl))).
Defined.

(** ** The round trip of the token-based snippets *)

Section RoundTripFacts.
Import Users Express.

Lemma find_first {A} (p : A -> bool) l1 u l2 :
    Forall (fun v => p v = false) l1 -> p u = true ->
    List.find p (l1 ++ u :: l2)%list = Some u.
Proof.
    intros Hall Hu. induction Hall as [| a l1 Ha Hall IH]; simpl.
    - now rewrite Hu.
    - now rewrite Ha.
Qed.

  (** Nobody in front of the user who signed in holds the new token, when
      nobody held it before the sign-up. *)
Lemma nobody_in_front_holds name pass tok (l : list User) l1 u l2 :
    (forall v, In v l -> token v <> Some tok) ->
    push name pass l = (l1 ++ u :: l2)%list ->
    Forall (fun v => holds (Some tok) v = false) l1.
Proof.
    intros Hfree Hsplit. apply List.Forall_forall. intros v Hv.
    assert (Hin : In v (push name pass l)).
    { rewrite Hsplit. apply in_or_app. now left. }
    unfold push in Hin. apply in_app_or in Hin.
    destruct (holds (Some tok) v) eqn:E; [| reflexivity]. exfalso.
    unfold holds in E. apply strict_eq_spec in E.
    destruct Hin as [Hin | [<- | []]].
    - exact (Hfree v Hin E).
    - discriminate.
Qed.

End RoundTripFacts.

(** C3, as stated, fails: the token-based snippet owns a round trip.  A
    sign-up, a sign-in and a GET /me with the token just issued are
    answered by the code of the snippet alone, [generateToken] included;
    the sign-in answers the same under two different stand-ins for
    jsonwebtoken and bcrypt, whereas the JWT sign-in, which does delegate,
    answers differently under them. *)
Lemma token_round_trip_owes_nothing_to_libraries :
  let john := Some "john" in
  let pw := Some "pw" in
  let token := "99999999999999999999999999999999" in
  let stored := {| Users.users := [{| Users.username := john;
                                      Users.password := pw;
                                      Users.token := None |}];
                   Users.draws := 0 |} in
  Token.generateToken Token.top_source 0 = (token, 32%nat)
  /\ fst (Session.run (ReadmeToken.handle Token.top_source)
            [Users.PostSignup john pw; Users.PostSignin john pw;
             Users.GetMe (Some token)] Users.boot)
     = [ {| Express.statusCode := 200;
            Express.body := [("message", "You have signed up")] |};
         {| Express.statusCode := 200; Express.body := [("token", token)] |};
         {| Express.statusCode := 200; Express.body := [("username", "john")] |} ]
  /\ Signin.memory_signin Signin.ReadmeTokenAuth Lib.demo Token.top_source
       john pw stored
     = Signin.memory_signin Signin.ReadmeTokenAuth Cleartext.lib Token.top_source
         john pw stored
  /\ Signin.memory_signin Signin.ReadmeJwt Lib.demo Token.top_source
       john pw stored
     <> Signin.memory_signin Signin.ReadmeJwt Cleartext.lib Token.top_source
          john pw stored.
Proof.
  split; [vm_compute; reflexivity |].
  split; [vm_compute; reflexivity |].
  split; [reflexivity | discriminate].
Qed.

(** C3 (amended). The token-based authentication snippets own an
    end-to-end behaviour that no third-party library provides.  Whenever
    [Math.random()] stays in [0, 1), a sign-in that follows a sign-up with
    the same username and password is answered 200 with a 32-character
    token made by [generateToken]; the token is stored on the first user
    with that username and password and on nobody else; and, when no user
    held that token before, GET /me with it is answered 200 with the
    username that signed in. *)
Theorem token_auth_round_trip rand name pass s :
  (forall j, Double.in_unit_interval (rand j)) ->
  Forall (fun signup_signin_me :
              (Users.Server -> Express.Response * Users.Server)
              * (Users.Server -> Express.Response * Users.Server)
              * (Users.field -> Users.Server -> Express.Response * Users.Server) =>
     let '(signup, signin, me) := signup_signin_me in
     let s1 := snd (signup s) in
     let r := fst (signin s1) in
     let s2 := snd (signin s1) in
     Express.statusCode r = 200
     /\ exists tok,
          Express.body r = [("token", tok)]
          /\ tok = fst (Token.generateToken rand (Users.draws s))
          /\ String.length tok = 32%nat
          /\ (exists l1 u l2,
                Users.users s1 = (l1 ++ u :: l2)%list
                /\ Users.username u = name /\ Users.password u = pass
                /\ Forall (fun v => ~ (Users.username v = name
                                       /\ Users.password v = pass)) l1
                /\ Users.users s2
                   = (l1 ++ {| Users.username := name; Users.password := pass;
                               Users.token := Some tok |} :: l2)%list)
          /\ ((forall v, In v (Users.users s) -> Users.token v <> Some tok) ->
              fst (me (Some tok) s2)
              = {| Express.statusCode := 200;
                   Express.body := Express.object [("username", name)] |}))
    [ (ReadmeToken.signup name pass, ReadmeToken.signin rand name pass,
       ReadmeToken.me);
      (NodeToken.signup name pass, NodeToken.signin rand name pass,
       NodeToken.me) ].
Proof.
  intros Hrand.
  assert (Hnew : Users.credentials name pass
            {| Users.username := name; Users.password := pass;
               Users.token := None |} = true).
  { unfold Users.credentials. simpl. now rewrite !strict_eq_refl. }
  destruct (find_app_new _ (Users.users s) _ Hnew) as (u & Hu).
  destruct (find_split _ _ _ Hu) as (l1 & l2 & Hsplit & Hall & Hcred).
  pose proof (generateToken_length rand (Users.draws s) Hrand) as Hlen.
  pose proof (proj1 (credentials_spec name pass u) Hcred) as [Hname Hpass].
  assert (Hall' : Forall (fun v => ~ (Users.username v = name
                                      /\ Users.password v = pass)) l1).
  { eapply List.Forall_impl; [| exact Hall]. intros v Hv Hm.
    apply credentials_spec in Hm. congruence. }
  apply List.Forall_cons; [| apply List.Forall_cons; [| apply List.Forall_nil]];
    cbv beta iota zeta;
    unfold ReadmeToken.signup, ReadmeToken.signin, NodeToken.signup,
      NodeToken.signin; cbn [fst snd Users.users Users.draws];
    unfold Users.push; rewrite Hu;
    destruct (Token.generateToken rand (Users.draws s)) as [tok k] eqn:Etok;
    cbn [fst snd Users.users] in *;
    (split; [reflexivity |]);
    exists tok; (split; [reflexivity |]); (split; [reflexivity |]);
    (split; [exact Hlen |]); split.
  - exists l1, u, l2. split; [exact Hsplit |]. split; [exact Hname |].
    split; [exact Hpass |]. split; [exact Hall' |].
    rewrite Hsplit, (assign_token_first _ tok l1 u l2 Hall Hcred).
    now rewrite Hname, Hpass.
  - intros Hfree. unfold ReadmeToken.me. cbn [Users.users].
    rewrite Hsplit, (assign_token_first _ tok l1 u l2 Hall Hcred).
    rewrite (find_first (Users.holds (Some tok)) l1 _ l2
               (nobody_in_front_holds name pass tok _ l1 u l2 Hfree Hsplit)).
    + cbn [Users.username]. now rewrite Hname.
    + unfold Users.holds. cbn [Users.token Users.strict_eq].
      apply String.eqb_refl.
  - exists l1, u, l2. split; [exact Hsplit |]. split; [exact Hname |].
    split; [exact Hpass |]. split; [exact Hall' |].
    rewrite Hsplit, (assign_token_first _ tok l1 u l2 Hall Hcred).
    now rewrite Hname, Hpass.
  - intros Hfree. unfold NodeToken.me. cbn [Users.users].
    rewrite Hsplit, (assign_token_first _ tok l1 u l2 Hall Hcred).
    rewrite (find_first (Users.holds (Some tok)) l1 _ l2
               (nobody_in_front_holds name pass tok _ l1 u l2 Hfree Hsplit)).
    + cbn [Users.username]. now rewrite Hname.
    + unfold Users.holds. cbn [Users.token Users.strict_eq].
      apply String.eqb_refl.
Qed.

Lemma token_auth_round_trip_witness :
  (forall j, Double.in_unit_interval (Token.top_source j))
  /\ (forall v, In v (Users.users Users.boot) ->
        Users.token v <> Some "99999999999999999999999999999999")
  /\ exists tok,
       Express.body
         (fst (ReadmeToken.signin Token.top_source (Some "john") (Some "pw")
                 (snd (ReadmeToken.signup (Some "john") (Some "pw") Users.boot))))
       = [("token", tok)]
       /\ String.length tok = 32%nat.
Proof.
  assert (H : forall j, Double.in_unit_interval (Token.top_source j)).
  { intros j. unfold Double.in_unit_interval, Token.top_source. simpl.
    unfold Double.prec, Double.scale. lia. }
  split; [exact H |]. split; [intros v [] |].
  pose proof (token_auth_round_trip Token.top_source (Some "john") (Some "pw")
                Users.boot H) as Hall.
  inversion Hall as [| x l Hreadme _]; subst.
  destruct Hreadme as (_ & tok & Hbody & _ & Hlen & _).
  exists tok. split; [exact Hbody | exact Hlen].
Defined.

(** ** More about useDebounce *)

Section TypingFacts.
Import Debounce.

Lemma fire_all_deps l : forall w,
    deps (List.fold_left fire l w) = deps w.
Proof. induction l as [| t l IH]; intros w; simpl; [reflexivity | now rewrite IH]. Qed.

Lemma elapse_deps ms w : deps (elapse ms w) = deps w.
Proof. unfold elapse. now rewrite fire_all_deps. Qed.

Lemma render_deps value delay w :
    settled w -> deps (render value delay w) = (value, delay).
Proof.
    intros Hs.
    destruct (deps_changed_or_not value delay w) as [(Hd & E1 & E2) | Hd].
    - unfold render. rewrite Hd. destruct (deps w). simpl in *. congruence.
    - apply (render_changed value delay w Hs Hd).
Qed.

Lemma last_default_irrelevant {A} (l : list A) : forall b d d',
    List.last (b :: l) d = List.last (b :: l) d'.
Proof.
    induction l as [| c l IH]; intros b d d'; [reflexivity |].
    change (List.last (c :: l) d = List.last (c :: l) d'). apply IH.
Qed.

Lemma last_cons_default {A} (l : list A) a d : List.last (a :: l) d = List.last l a.
Proof.
    destruct l as [| b l]; [reflexivity |].
    change (List.last (b :: l) d = List.last (b :: l) a).
    apply last_default_irrelevant.
Qed.

Lemma final_cons initial key keys :
    Typing.final initial (key :: keys) = Typing.final (fst key) keys.
Proof. unfold Typing.final. simpl List.map. apply last_cons_default. Qed.

  (** One key stroke followed by less than the delay: nothing is published
      and the new text is what the pending timeout holds. *)
Lemma stroke_quiet d v gap w :
    settled w -> v <> fst (deps w) -> (gap < d)%nat ->
    let w' := elapse gap (render v d w) in
    debouncedValue w' = debouncedValue w /\ settled w' /\ deps w' = (v, d).
Proof.
    intros Hs Hne Hgap w'. subst w'.
    assert (Hd : String.eqb (fst (deps w)) v && Nat.eqb (snd (deps w)) d = false).
    { apply andb_false_iff. left. apply String.eqb_neq. congruence. }
    destruct (render_changed v d w Hs Hd) as (Hp & Hdeps & _ & Hnow & Hval).
    destruct (elapse_too_short gap (render v d w) _ Hp) as [Hv _].
    { rewrite Hnow. simpl. lia. }
    split; [congruence |]. split.
    - apply elapse_settled, render_settled, Hs.
    - now rewrite elapse_deps.
Qed.

  (** A burst of key strokes, each less than the delay after the one
      before: nothing is published. *)
Lemma burst_quiet d keys : forall w,
    settled w -> Typing.changing (fst (deps w)) keys ->
    Forall (fun key => (snd key < d)%nat) keys ->
    let w' := run w (Typing.burst d keys) in
    debouncedValue w' = debouncedValue w /\ settled w'
    /\ (keys <> [] -> deps w' = (Typing.final (fst (deps w)) keys, d)).
Proof.
    induction keys as [| key keys IH]; intros w Hs Hch Hgaps; simpl.
    - split; [reflexivity |]. split; [exact Hs |]. intros H. now elim H.
    - destruct Hch as [Hne Hch]. inversion Hgaps as [| ? ? Hgap Hrest]; subst.
      destruct (stroke_quiet d (fst key) (snd key) w Hs Hne Hgap)
        as (Hv & Hs' & Hd').
      set (w1 := elapse (snd key) (render (fst key) d w)) in *.
      assert (Hch' : Typing.changing (fst (deps w1)) keys) by now rewrite Hd'.
      destruct (IH w1 Hs' Hch' Hrest) as (Hv2 & Hs2 & Hd2).
      fold (run w1 (Typing.burst d keys)).
      split; [congruence |]. split; [exact Hs2 |]. intros _.
      rewrite final_cons. destruct keys as [| key' keys'].
      + simpl. exact Hd'.
      + rewrite Hd2 by discriminate. now rewrite Hd'.
Qed.

End TypingFacts.

(** X7. useDebounce publishes after a quiet period: in any state the hook
    can reach, a render with [value] followed by at least [delay]
    milliseconds without a render leaves [debouncedValue = value] and no
    timeout pending. *)
Theorem debounce_publishes_after_quiet_period t0 v0 d0 es value delay ms :
  (delay <= ms)%nat ->
  let w := Debounce.elapse ms
             (Debounce.render value delay
                (Debounce.run (Debounce.mount t0 v0 d0) es)) in
  Debounce.debouncedValue w = value /\ Debounce.pending w = [].
Proof.
  intros Hms w. subst w.
  set (w0 := Debounce.run (Debounce.mount t0 v0 d0) es).
  assert (Hs0 : Debounce.settled w0) by apply run_settled, mount_settled.
  pose proof (render_settled value delay w0 Hs0) as Hs1.
  pose proof (render_deps value delay w0 Hs0) as Hd.
  destruct (elapse_publishes ms _ Hs1) as [Hv Hp].
  { now rewrite Hd. }
  rewrite Hd in Hv. auto.
Qed.

Lemma debounce_publishes_after_quiet_period_witness :
  (200 <= 250)%nat
  /\ Debounce.debouncedValue
       (Debounce.elapse 250
          (Debounce.render "ab" 200
             (Debounce.run (Debounce.mount 0 "" 200)
                [Debounce.Render "a" 200; Debounce.Elapse 50]))) = "ab".
Proof.
  assert (H : (200 <= 250)%nat) by lia.
  split; [exact H |].
  exact (proj1 (debounce_publishes_after_quiet_period 0 "" 200
                  [Debounce.Render "a" 200; Debounce.Elapse 50] "ab" 200 250 H)).
Defined.

(** X8. useDebounce holds back a burst: while every key stroke changes the
    text and comes less than [delay] after the one before, the debounced
    value does not move; the quiet period that follows publishes the final
    text. *)
Theorem debounce_holds_back_a_burst t0 v0 d0 es delay keys pause :
  let w := Debounce.run (Debounce.mount t0 v0 d0) es in
  Typing.changing (fst (Debounce.deps w)) keys ->
  Forall (fun key => (snd key < delay)%nat) keys ->
  keys <> [] ->
  (delay <= pause)%nat ->
  let w' := Debounce.run w (Typing.burst delay keys) in
  Debounce.debouncedValue w' = Debounce.debouncedValue w
  /\ Debounce.debouncedValue (Debounce.elapse pause w')
     = Typing.final (fst (Debounce.deps w)) keys.
Proof.
  intros w Hch Hgaps Hne Hpause w'.
  assert (Hs : Debounce.settled w) by apply run_settled, mount_settled.
  destruct (burst_quiet delay keys w Hs Hch Hgaps) as (Hv & Hs' & Hd).
  fold w' in Hv, Hs', Hd. specialize (Hd Hne).
  split; [exact Hv |].
  destruct (elapse_publishes pause w' Hs') as [Hp _].
  { now rewrite Hd. }
  now rewrite Hp, Hd.
Qed.

Lemma debounce_holds_back_a_burst_witness :
  let keys := [("h", 80%nat); ("he", 120%nat); ("hey", 60%nat)] in
  Typing.changing (fst (Debounce.deps (Debounce.run (Debounce.mount 0 "" 200) []))) keys
  /\ Forall (fun key => (snd key < 200)%nat) keys
  /\ keys <> []
  /\ (200 <= 200)%nat
  /\ Debounce.debouncedValue
       (Debounce.run (Debounce.run (Debounce.mount 0 "" 200) [])
          (Typing.burst 200 keys)) = "".
Proof.
  intros keys.
  assert (H1 : Typing.changing
                 (fst (Debounce.deps (Debounce.run (Debounce.mount 0 "" 200) [])))
                 keys)
    by (simpl; repeat split; discriminate).
  assert (H2 : Forall (fun key => (snd key < 200)%nat) keys)
    by (repeat constructor; simpl; lia).
  assert (H3 : keys <> []) by discriminate.
  assert (H4 : (200 <= 200)%nat) by lia.
  split; [exact H1 |]. split; [exact H2 |]. split; [exact H3 |].
  split; [exact H4 |].
  exact (proj1 (debounce_holds_back_a_burst 0 "" 200 [] 200 keys 200
                  H1 H2 H3 H4)).
Defined.

(** ** SearchInput *)

Section SearchInputFacts.
Import SearchInput.

Lemma after_render_same c :
    Debounce.debouncedValue (hook c) = searched c -> after_render c = c.
Proof.
    intros H. unfold after_render. rewrite H, String.eqb_refl. reflexivity.
Qed.

  (** During a burst the component neither searches nor re-runs its
      effect; its hook goes through the burst. *)
Lemma strokes_cons key keys c :
    strokes (key :: keys) c = strokes keys (elapse (snd key) (type (fst key) c)).
Proof. reflexivity. Qed.

Lemma burst_cons d key keys w :
    Debounce.run w (Typing.burst d (key :: keys))
    = Debounce.run (Debounce.elapse (snd key) (Debounce.render (fst key) d w))
        (Typing.burst d keys).
Proof. reflexivity. Qed.

Lemma strokes_quiet keys : forall c,
    Debounce.settled (hook c) ->
    Debounce.debouncedValue (hook c) = searched c ->
    Typing.changing (fst (Debounce.deps (hook c))) keys ->
    Forall (fun key => (snd key < 500)%nat) keys ->
    let c' := strokes keys c in
    hook c' = Debounce.run (hook c) (Typing.burst 500 keys)
    /\ console c' = console c /\ searched c' = searched c.
Proof.
    induction keys as [| key keys IH]; intros c Hs Hv Hch Hgaps.
    - simpl. auto.
    - destruct Hch as [Hne Hch]. inversion Hgaps as [| ? ? Hgap Hrest]; subst.
      destruct (stroke_quiet 500 (fst key) (snd key) (hook c) Hs Hne Hgap)
        as (Hv' & Hs' & Hd').
      assert (Hd : String.eqb (fst (Debounce.deps (hook c))) (fst key)
                   && Nat.eqb (snd (Debounce.deps (hook c))) 500 = false).
      { apply andb_false_iff. left. apply String.eqb_neq. congruence. }
      destruct (render_changed (fst key) 500 (hook c) Hs Hd) as (_ & _ & _ & _ & Hval).
      cbv zeta. rewrite strokes_cons, burst_cons.
      unfold type. rewrite after_render_same by (simpl; congruence).
      unfold elapse. rewrite after_render_same by (simpl; congruence).
      cbn [search hook searched console].
      set (c1 := {| search := fst key;
                    hook := Debounce.elapse (snd key)
                              (Debounce.render (fst key) 500 (hook c));
                    searched := searched c; console := console c |}).
      assert (H1 : Debounce.settled (hook c1)) by exact Hs'.
      assert (H2 : Debounce.debouncedValue (hook c1) = searched c1)
        by (simpl; congruence).
      assert (H3 : Typing.changing (fst (Debounce.deps (hook c1))) keys)
        by (simpl; now rewrite Hd').
      destruct (IH c1 H1 H2 H3 Hrest) as (Hh & Hc & Hse).
      rewrite Hh, Hc, Hse. simpl. auto.
Qed.

End SearchInputFacts.

(** X9. SearchInput searches once per pause, not once per key stroke: after
    a burst of key strokes that each change the text and come less than
    500 ms apart, followed by a pause of at least 500 ms, the console
    holds exactly one search, for the final text, and none when the
    final text is empty. *)
Theorem search_input_searches_once t0 keys pause :
  Typing.changing "" keys ->
  Forall (fun key => (snd key < 500)%nat) keys ->
  keys <> [] ->
  (500 <= pause)%nat ->
  SearchInput.console (SearchInput.strokes keys (SearchInput.mount t0)) = []
  /\ SearchInput.console
       (SearchInput.elapse pause (SearchInput.strokes keys (SearchInput.mount t0)))
     = if String.eqb (Typing.final "" keys) "" then []
       else [Typing.final "" keys].
Proof.
  intros Hch Hgaps Hne Hpause.
  assert (Hs : Debounce.settled (SearchInput.hook (SearchInput.mount t0)))
    by apply mount_settled.
  destruct (strokes_quiet keys (SearchInput.mount t0) Hs eq_refl Hch Hgaps)
    as (Hh & Hc & Hse).
  destruct (burst_quiet 500 keys _ Hs Hch Hgaps) as (Hv & Hs' & Hd).
  specialize (Hd Hne).
  set (c := SearchInput.strokes keys (SearchInput.mount t0)) in *.
  split; [exact Hc |].
  rewrite <- Hh in Hv, Hs', Hd.
  destruct (elapse_publishes pause (SearchInput.hook c) Hs') as [Hp _].
  { now rewrite Hd. }
  rewrite Hd in Hp. simpl in Hp.
  unfold SearchInput.elapse, SearchInput.after_render. cbn [SearchInput.hook
    SearchInput.searched SearchInput.console SearchInput.search].
  rewrite Hp, Hse, Hc. simpl.
  destruct (String.eqb (Typing.final "" keys) ""); reflexivity.
Qed.

Lemma search_input_searches_once_witness :
  let keys := [("r", 90%nat); ("ro", 110%nat); ("roc", 70%nat); ("rocq", 40%nat)] in
  Typing.changing "" keys
  /\ Forall (fun key => (snd key < 500)%nat) keys
  /\ keys <> []
  /\ (500 <= 500)%nat
  /\ SearchInput.console
       (SearchInput.elapse 500 (SearchInput.strokes keys (SearchInput.mount 0)))
     = (if String.eqb (Typing.final "" keys) "" then []
        else [Typing.final "" keys]).
Proof.
  intros keys.
  assert (H1 : Typing.changing "" keys) by (simpl; repeat split; discriminate).
  assert (H2 : Forall (fun key => (snd key < 500)%nat) keys)
    by (repeat constructor; simpl; lia).
  assert (H3 : keys <> []) by discriminate.
  assert (H4 : (500 <= 500)%nat) by lia.
  split; [exact H1 |]. split; [exact H2 |]. split; [exact H3 |].
  split; [exact H4 |].
  exact (proj2 (search_input_searches_once 0 keys 500 H1 H2 H3 H4)).
Defined.

Example search_input_run :
  SearchInput.console
    (SearchInput.elapse 500
       (SearchInput.strokes [("r", 90%nat); ("ro", 110%nat)] (SearchInput.mount 0)))
  = ["ro"].
Proof. reflexivity. Qed.

(** ** More about useFetch *)

Section MoreFetchFacts.
Import Fetch.

Lemma step_keeps_fetch_error h e :
    error (state h) <> None -> error (state (step h e)) <> None.
Proof.
    intros H. destruct e as [u | id o]; simpl.
    - unfold render. destruct (String.eqb (url h) u); [exact H | exact H].
    - unfold settle. destruct (existsb _ _); [| exact H].
      destruct o; simpl; [exact H | discriminate].
Qed.

Lemma run_keeps_fetch_error es : forall h,
    error (state h) <> None -> error (state (run h es)) <> None.
Proof.
    induction es as [| e es IH]; intros h H; simpl; [exact H |].
    apply IH, step_keeps_fetch_error, H.
Qed.

Lemma step_idle h e : DataDisplay.idle h -> DataDisplay.idle (step h e).
Proof.
    unfold DataDisplay.idle. intros H. destruct e as [u | id o]; simpl.
    - unfold render. destruct (String.eqb (url h) u); [exact H |].
      simpl. intros Hnil. destruct (inflight h); discriminate.
    - unfold settle. destruct (existsb _ _); [| exact H].
      intros _. destruct o; reflexivity.
Qed.

Lemma run_idle es : forall h, DataDisplay.idle h -> DataDisplay.idle (run h es).
Proof.
    induction es as [| e es IH]; intros h H; simpl; [exact H |].
    apply IH, step_idle, H.
Qed.

End MoreFetchFacts.

(** X10. useFetch never clears [error]: once a request has failed, whatever
    renders and responses follow, [error] stays set, and [DataDisplay],
    which tests [error] before it shows the data, shows "Loading..." or
    the error and never the data again. *)
Theorem fetch_error_is_never_cleared (h : Fetch.hook) es :
  Fetch.error (Fetch.state h) <> None ->
  let r := Fetch.state (Fetch.run h es) in
  Fetch.error r <> None
  /\ (DataDisplay.render r = Dom.Elem "div" [Dom.Text "Loading..."]
      \/ exists message,
           DataDisplay.render r
           = Dom.Elem "div" [Dom.Text "Error: "; Dom.Text message]).
Proof.
  intros H r. pose proof (run_keeps_fetch_error es h H) as Hr. fold r in Hr.
  split; [exact Hr |]. unfold DataDisplay.render.
  destruct (Fetch.loading r); [now left |].
  destruct (Fetch.error r) as [m |]; [right; eauto | contradiction].
Qed.

Lemma fetch_error_is_never_cleared_witness :
  let failed := Fetch.settle 0 (Fetch.Rejected "Failed to fetch")
                  (Fetch.mount "https://api.example.com/a") in
  Fetch.error (Fetch.state failed) <> None
  /\ Fetch.error
       (Fetch.state
          (Fetch.run failed
             [Fetch.Render "https://api.example.com/b";
              Fetch.Settle 1 (Fetch.Resolved "{}")])) <> None.
Proof.
  intros failed.
  assert (H : Fetch.error (Fetch.state failed) <> None) by discriminate.
  split; [exact H |].
  exact (proj1 (fetch_error_is_never_cleared failed
                  [Fetch.Render "https://api.example.com/b";
                   Fetch.Settle 1 (Fetch.Resolved "{}")] H)).
Defined.

(** X11. useFetch stops loading when its requests are done: after any
    renders and responses, if no request is in flight then [loading] is
    false; and a render with a new url always leaves a request in flight
    with [loading] true. *)
Theorem fetch_idle_means_not_loading u es :
  let h := Fetch.run (Fetch.mount u) es in
  (Fetch.inflight h = [] -> Fetch.loading (Fetch.state h) = false)
  /\ forall u', u' <> Fetch.url h ->
       Fetch.loading (Fetch.state (Fetch.render u' h)) = true
       /\ In (Fetch.next_request h, u') (Fetch.inflight (Fetch.render u' h)).
Proof.
  intros h. split.
  - apply run_idle. unfold DataDisplay.idle. simpl. discriminate.
  - intros u' Hne. unfold Fetch.render.
    destruct (String.eqb_spec (Fetch.url h) u') as [E | E]; [congruence |].
    simpl. split; [reflexivity |]. apply in_or_app. right. now left.
Qed.

Lemma fetch_idle_means_not_loading_witness :
  let h := Fetch.run (Fetch.mount "https://api.example.com/a")
             [Fetch.Settle 0 (Fetch.Resolved "[]")] in
  Fetch.inflight h = [] /\ Fetch.loading (Fetch.state h) = false.
Proof.
  intros h. split; [reflexivity |].
  exact (proj1 (fetch_idle_means_not_loading "https://api.example.com/a"
                  [Fetch.Settle 0 (Fetch.Resolved "[]")]) eq_refl).
Defined.

(** ** useCounter and usePrevious *)

Section SmallHooks.

Lemma presses_no_reset init cs : forall c,
    ~ In UseCounter.Reset cs ->
    List.fold_left (UseCounter.press init) cs c = c + UseCounter.net cs.
Proof.
    unfold UseCounter.net.
    assert (H : forall c n, ~ In UseCounter.Reset cs ->
      List.fold_left (UseCounter.press init) cs (c + n)
      = c + List.fold_left (fun n c => match c with
                                       | UseCounter.Increment => n + 1
                                       | UseCounter.Decrement => n - 1
                                       | UseCounter.Reset => n
                                       end) cs n).
    { induction cs as [| a cs IH]; intros c n Hno; simpl; [reflexivity |].
      assert (Hno' : ~ In UseCounter.Reset cs) by (intros Hin; apply Hno; now right).
      destruct a.
      - change (UseCounter.press init (c + n) UseCounter.Increment) with (c + n + 1).
        replace (c + n + 1) with (c + (n + 1)) by lia. now apply IH.
      - change (UseCounter.press init (c + n) UseCounter.Decrement) with (c + n - 1).
        replace (c + n - 1) with (c + (n - 1)) by lia. now apply IH.
      - exfalso. apply Hno. now left. }
    intros c Hno. specialize (H c 0 Hno). now rewrite Z.add_0_r in H.
Qed.

Lemma renders_previous values : forall h v,
    UsePrevious.current h = Some v -> UsePrevious.dependency h = Some v ->
    UsePrevious.renders values h
    = List.firstn (List.length values) (Some v :: List.map Some values).
Proof.
    induction values as [| x values IH]; intros h v Hc Hd; [reflexivity |].
    cbn [UsePrevious.renders UsePrevious.render List.length List.map List.firstn].
    rewrite Hc. f_equal. rewrite Hd.
    destruct (Z.eqb_spec v x) as [-> | Hne].
    - now apply IH.
    - now apply IH.
Qed.

End SmallHooks.

(** X12. useCounter: whatever the order of the calls, the count is the
    initial value plus the increments minus the decrements made since the
    last [reset] (since the start when there was none); the initial value
    is 0 when the hook is called without an argument. *)
Theorem use_counter_counts_since_reset init before after :
  ~ In UseCounter.Reset after ->
  UseCounter.presses init (before ++ UseCounter.Reset :: after)
  = UseCounter.initial init + UseCounter.net after
  /\ UseCounter.presses init after = UseCounter.initial init + UseCounter.net after
  /\ UseCounter.initial None = 0.
Proof.
  intros Hno. unfold UseCounter.presses. split; [| split; [| reflexivity]].
  - rewrite fold_left_app. cbn [List.fold_left].
    change (UseCounter.press init _ UseCounter.Reset) with (UseCounter.initial init).
    now apply presses_no_reset.
  - now apply presses_no_reset.
Qed.

Lemma use_counter_counts_since_reset_witness :
  ~ In UseCounter.Reset [UseCounter.Increment; UseCounter.Increment; UseCounter.Decrement]
  /\ UseCounter.presses (Some 5)
       ([UseCounter.Decrement; UseCounter.Decrement]
        ++ UseCounter.Reset
           :: [UseCounter.Increment; UseCounter.Increment; UseCounter.Decrement])
     = UseCounter.initial (Some 5)
       + UseCounter.net [UseCounter.Increment; UseCounter.Increment;
                         UseCounter.Decrement].
Proof.
  assert (H : ~ In UseCounter.Reset
                [UseCounter.Increment; UseCounter.Increment; UseCounter.Decrement]).
  { intros [H | [H | [H | []]]]; discriminate. }
  split; [exact H |].
  exact (proj1 (use_counter_counts_since_reset (Some 5)
                  [UseCounter.Decrement; UseCounter.Decrement]
                  [UseCounter.Increment; UseCounter.Increment; UseCounter.Decrement]
                  H)).
Defined.

(** X13. usePrevious returns, in every render after the first, the value
    passed to the render before, and [undefined] in the first render. *)
Theorem use_previous_returns_previous_value (values : list Z) :
  UsePrevious.renders values UsePrevious.fresh
  = List.firstn (List.length values) (None :: List.map Some values).
Proof.
  destruct values as [| v values]; [reflexivity |].
  cbn [UsePrevious.renders UsePrevious.render UsePrevious.fresh
       UsePrevious.current UsePrevious.dependency List.length List.map
       List.firstn].
  f_equal. now apply renders_previous.
Qed.

Example use_previous_run :
  UsePrevious.renders [0; 1; 1; 2] UsePrevious.fresh
  = [None; Some 0; Some 1; Some 1].
Proof. reflexivity. Qed.

(** ** The DOM todo list *)

Section TodoFacts.
Import TodoDom.

Lemma step_in_sync p a :
    container p = List.map template (todos p) ->
    container (step p a) = List.map template (todos (step p a)).
Proof. intros H. destruct a; simpl; [exact H | reflexivity | reflexivity]. Qed.

Lemma run_in_sync acts : forall p,
    container p = List.map template (todos p) ->
    container (run p acts) = List.map template (todos (run p acts)).
Proof.
    induction acts as [| a acts IH]; intros p H; simpl; [exact H |].
    apply IH, step_in_sync, H.
Qed.

End TodoFacts.

(** X14. The DOM todo list: after any sequence of typing, adding and
    deleting, the list on the page shows exactly the todos, in order;
    [addTodo()] appends a todo with the text of the input and the id
    [Date.now()] and empties the input; [deleteTodo(id)] removes every todo
    with that id and keeps the others; so two todos added within the same
    millisecond are both stored with the same id and disappear together
    when that id is deleted. *)
Theorem todo_dom_delete_by_id acts (p : TodoDom.page) i now a b :
  let first := {| TodoDom.id := now; TodoDom.text := a;
                  TodoDom.completed := false |} in
  let second := {| TodoDom.id := now; TodoDom.text := b;
                   TodoDom.completed := false |} in
  let both := TodoDom.run p [TodoDom.Fill a; TodoDom.Add now;
                             TodoDom.Fill b; TodoDom.Add now] in
  TodoDom.container (TodoDom.run TodoDom.start acts)
  = List.map TodoDom.template (TodoDom.todos (TodoDom.run TodoDom.start acts))
  /\ TodoDom.todos (TodoDom.addTodo now (TodoDom.fill a p))
     = (TodoDom.todos p ++ [first])%list
  /\ TodoDom.container (TodoDom.addTodo now (TodoDom.fill a p))
     = (List.map TodoDom.template (TodoDom.todos p) ++ [TodoDom.template first])%list
  /\ TodoDom.input (TodoDom.addTodo now (TodoDom.fill a p)) = ""
  /\ (forall t, In t (TodoDom.todos (TodoDom.deleteTodo i p))
                <-> In t (TodoDom.todos p) /\ TodoDom.id t <> i)
  /\ TodoDom.todos both = (TodoDom.todos p ++ [first; second])%list
  /\ TodoDom.todos (TodoDom.deleteTodo now both)
     = List.filter (fun t => negb (Z.eqb (TodoDom.id t) now)) (TodoDom.todos p)
  /\ ~ In first (TodoDom.todos (TodoDom.deleteTodo now both))
  /\ ~ In second (TodoDom.todos (TodoDom.deleteTodo now both)).
Proof.
  intros first second both.
  assert (Hboth : TodoDom.todos both = (TodoDom.todos p ++ [first; second])%list).
  { unfold both. simpl. now rewrite <- app_assoc. }
  assert (Hdel : forall q t, In t (TodoDom.todos (TodoDom.deleteTodo now q))
                             -> TodoDom.id t <> now).
  { intros q t Ht. simpl in Ht. apply List.filter_In in Ht.
    destruct Ht as [_ Ht]. now apply negb_true_iff, Z.eqb_neq in Ht. }
  split; [apply run_in_sync; reflexivity |].
  split; [reflexivity |].
  split; [simpl; now rewrite List.map_app |].
  split; [reflexivity |].
  split.
  { intros t. simpl. rewrite List.filter_In, negb_true_iff, Z.eqb_neq. reflexivity. }
  split; [exact Hboth |].
  split.
  { change (TodoDom.todos (TodoDom.deleteTodo now both))
      with (List.filter (fun t => negb (Z.eqb (TodoDom.id t) now))
              (TodoDom.todos both)).
    rewrite Hboth, List.filter_app. simpl. rewrite Z.eqb_refl. simpl.
    apply app_nil_r. }
  split; intros Hin; apply (Hdel both) in Hin; now apply Hin.
Qed.

Example todo_template :
  TodoDom.container
    (TodoDom.run TodoDom.start [TodoDom.Fill "milk"; TodoDom.Add 1700000000000])
  = [ (TodoDom.newline ++ "            <span>milk</span>" ++ TodoDom.newline
       ++ "            <button onclick=" ++ TodoDom.quote
       ++ "deleteTodo(1700000000000)" ++ TodoDom.quote ++ ">Delete</button>"
       ++ TodoDom.newline ++ "        ")%string ].
Proof. vm_compute. reflexivity. Qed.

(** ** The React todo app *)

Section TodoAppFacts.
Import TodoApp.

Lemma find_fresh_number n (ps : list post) :
    Forall (fun p => (number p < n)%nat) ps ->
    List.find (fun p => Nat.eqb (number p) n) ps = None
    /\ List.filter (fun q => negb (Nat.eqb (number q) n)) ps = ps.
Proof.
    induction 1 as [| p ps Hp Hall [IH1 IH2]]; simpl; [auto |].
    destruct (Nat.eqb_spec (number p) n); [lia |]. simpl.
    now rewrite IH1, IH2.
Qed.

Lemma find_app_fresh n (ps : list post) p :
    Forall (fun q => (number q < n)%nat) ps -> number p = n ->
    List.find (fun q => Nat.eqb (number q) n) (ps ++ [p])%list = Some p
    /\ List.filter (fun q => negb (Nat.eqb (number q) n)) (ps ++ [p])%list = ps.
Proof.
    intros Hall Hp. destruct (find_fresh_number n ps Hall) as [H1 H2].
    split.
    - induction Hall as [| q ps Hq Hall IH]; simpl.
      + now rewrite Hp, Nat.eqb_refl.
      + simpl in H1. destruct (Nat.eqb (number q) n); [discriminate |].
        apply IH; [exact H1 |].
        simpl in H2. destruct (Nat.eqb_spec (number q) n); [lia |].
        simpl in H2. congruence.
    - rewrite List.filter_app, H2. simpl. rewrite Hp, Nat.eqb_refl. simpl.
      apply app_nil_r.
Qed.

Lemma find_app_left {A} (f : A -> bool) l1 l2 x :
    List.find f l1 = Some x -> List.find f (l1 ++ l2)%list = Some x.
Proof.
    induction l1 as [| a l1 IH]; simpl; [discriminate |].
    destruct (f a); auto.
Qed.

Lemma step_numbered c e : numbered c -> numbered (step c e).
Proof.
    unfold numbered. intros H. destruct e as [v | | data | n t]; simpl.
    - exact H.
    - apply Forall_app. split.
      + eapply List.Forall_impl; [| exact H]. simpl. intros; lia.
      + constructor; [simpl; lia | constructor].
    - destruct (loading_list c); exact H.
    - destruct (List.find _ _); [| exact H]. simpl.
      apply List.Forall_forall. intros q Hq. apply List.filter_In in Hq.
      destruct Hq as [Hq _]. now apply (proj1 (List.Forall_forall _ _) H).
Qed.

Lemma run_numbered es : forall c, numbered c -> numbered (run c es).
Proof.
    induction es as [| e es IH]; intros c H; simpl; [exact H |].
    apply IH, step_numbered, H.
Qed.

Lemma add_and_wait_appends c answer :
    numbered c ->
    todos (add_and_wait c answer) = (todos c ++ [answer])%list
    /\ posts (add_and_wait c answer) = posts c
    /\ next_post (add_and_wait c answer) = S (next_post c)
    /\ input (add_and_wait c answer) = "".
Proof.
    intros Hn. unfold add_and_wait, run. cbn [List.fold_left].
    cbn [step todos input loading_list posts next_post].
    destruct (find_app_fresh (next_post c) (posts c)
                {| number := next_post c; closed_todos := todos c;
                   sent_text := text answer |} Hn eq_refl) as [Hf Hr].
    rewrite Hf, Hr. cbn [todos posts next_post input closed_todos]. auto.
Qed.

End TodoAppFacts.

(** X15. The React todo app: todos added one at a time, each after the
    answer to the one before, all appear in order; but when "Add" is
    clicked twice before the first answer comes back, the second answer
    replaces the list by the one its handler had closed over plus its own
    todo, and the first new todo is lost from the screen. *)
Theorem todo_app_lost_update es answers first second :
  let c := TodoApp.run TodoApp.mount es in
  TodoApp.todos (List.fold_left TodoApp.add_and_wait answers c)
  = (TodoApp.todos c ++ answers)%list
  /\ TodoApp.todos
       (TodoApp.run c [TodoApp.ClickAdd; TodoApp.ClickAdd;
                       TodoApp.TodoArrives (TodoApp.next_post c) first;
                       TodoApp.TodoArrives (S (TodoApp.next_post c)) second])
     = (TodoApp.todos c ++ [second])%list.
Proof.
  intros c.
  assert (Hn : TodoApp.numbered c).
  { apply run_numbered. unfold TodoApp.numbered. constructor. }
  split.
  - clearbody c. revert c Hn.
    induction answers as [| a answers IH]; intros c Hn; simpl.
    + now rewrite app_nil_r.
    + destruct (add_and_wait_appends c a Hn) as (Ht & Hp & Hx & _).
      rewrite IH.
      * rewrite Ht, <- app_assoc. reflexivity.
      * unfold TodoApp.numbered in *. rewrite Hp, Hx.
        eapply List.Forall_impl; [| exact Hn]. simpl. intros; lia.
  - set (n := TodoApp.next_post c).
    set (p1 := {| TodoApp.number := n; TodoApp.closed_todos := TodoApp.todos c;
                  TodoApp.sent_text := TodoApp.input c |}).
    set (p2 := {| TodoApp.number := S n; TodoApp.closed_todos := TodoApp.todos c;
                  TodoApp.sent_text := TodoApp.input c |}).
    set (c2 := TodoApp.step (TodoApp.step c TodoApp.ClickAdd) TodoApp.ClickAdd).
    assert (Hposts2 : TodoApp.posts c2 = ((TodoApp.posts c ++ [p1]) ++ [p2])%list)
      by reflexivity.
    assert (Hload2 : TodoApp.loading_list c2 = TodoApp.loading_list c) by reflexivity.
    destruct (find_fresh_number n (TodoApp.posts c) Hn) as [_ Hr0].
    assert (Hf1 : List.find (fun p => Nat.eqb (TodoApp.number p) n) (TodoApp.posts c2)
                  = Some p1).
    { rewrite Hposts2. apply find_app_left. apply (find_app_fresh _ _ p1 Hn eq_refl). }
    assert (Hne : Nat.eqb (S n) n = false) by (apply Nat.eqb_neq; lia).
    assert (Hr1 : List.filter (fun q => negb (Nat.eqb (TodoApp.number q) n))
                    (TodoApp.posts c2) = (TodoApp.posts c ++ [p2])%list).
    { rewrite Hposts2, !List.filter_app, Hr0.
      cbn [List.filter TodoApp.number p1 p2]. rewrite Nat.eqb_refl, Hne.
      cbn [negb]. now rewrite app_nil_r. }
    set (c3 := TodoApp.step c2 (TodoApp.TodoArrives n first)).
    assert (Hposts3 : TodoApp.posts c3 = (TodoApp.posts c ++ [p2])%list).
    { unfold c3. cbn [TodoApp.step]. rewrite Hf1. cbn [TodoApp.posts]. exact Hr1. }
    assert (Hn' : Forall (fun q => (TodoApp.number q < S n)%nat) (TodoApp.posts c)).
    { eapply List.Forall_impl; [| exact Hn]. simpl. intros; lia. }
    destruct (find_app_fresh (S n) (TodoApp.posts c) p2 Hn' eq_refl) as [Hf2 _].
    change (TodoApp.todos (TodoApp.step c3 (TodoApp.TodoArrives (S n) second))
            = (TodoApp.todos c ++ [second])%list).
    cbn [TodoApp.step]. rewrite Hposts3, Hf2. reflexivity.
Qed.

Example todo_app_two_quick_clicks :
  let milk := {| TodoApp.id := 1; TodoApp.text := "milk"; TodoApp.completed := false |} in
  let eggs := {| TodoApp.id := 2; TodoApp.text := "eggs"; TodoApp.completed := false |} in
  TodoApp.shown
    (TodoApp.run TodoApp.mount
       [TodoApp.ListArrives []; TodoApp.Typing "milk"; TodoApp.ClickAdd;
        TodoApp.Typing "eggs"; TodoApp.ClickAdd;
        TodoApp.TodoArrives 0 milk; TodoApp.TodoArrives 1 eggs])
  = ["eggs"].
Proof. reflexivity. Qed.
